(** * verifai: the comparison endpoint of [src/app/api/compare/route.ts]

    A shallow embedding of the route handler and of its helpers
    ([parseEigenMessage], [clamp], [uuidToSeed], [collectOpenAiRuns],
    [collectEigenRuns], [POST]) together with the properties the
    specification states about them. *)

From Stdlib Require Import ZArith NArith QArith Qround Qabs List Bool Lia.
From Stdlib Require Import DecimalPos.
From Equations Require Import Equations.
From stdpp Require Import base option list.
From Stdlib Require Import Ascii String.
Import ListNotations.

Local Open Scope Z_scope.

(** ** JavaScript strings

    A JavaScript string is a sequence of UTF-16 code units.  The string
    methods and the regular expressions of the route (none has the [u]
    flag) work on code units, so a string is modelled as the list of its
    code units. *)

Module JS.

Definition code_unit := N.
Definition jsstring := list code_unit.

(** An ASCII literal as a JavaScript string. *)
Definition lit (s : string) : jsstring :=
  map N_of_ascii (list_ascii_of_string s).

Definition LF : code_unit := 10%N.
Definition LT : code_unit := 60%N.     (* < *)
Definition GT : code_unit := 62%N.     (* > *)
Definition PIPE : code_unit := 124%N.  (* | *)
Definition MINUS : code_unit := 45%N.  (* - *)

(** WhiteSpace and LineTerminator of ECMA-262: the code units removed by
    [String.prototype.trim] and matched by the class [\s]. *)
Definition isWhiteSpace (c : code_unit) : bool :=
  (existsb (N.eqb c)
     [9; 10; 11; 12; 13; 32; 160; 5760; 8232; 8233; 8239; 8287; 12288; 65279]
   || ((8192 <=? c) && (c <=? 8202)))%N.

Definition isEmpty (s : jsstring) : bool :=
  match s with [] => true | _ :: _ => false end.

Fixpoint trimStart (s : jsstring) : jsstring :=
  match s with
  | [] => []
  | c :: r => if isWhiteSpace c then trimStart r else s
  end.

Definition trimEnd (s : jsstring) : jsstring := rev (trimStart (rev s)).

(** [s.trim()] *)
Definition trim (s : jsstring) : jsstring := trimEnd (trimStart s).

Fixpoint startsWith (p s : jsstring) : bool :=
  match p, s with
  | [], _ => true
  | _ :: _, [] => false
  | a :: p', b :: s' => (a =? b)%N && startsWith p' s'
  end.

(** [s.lastIndexOf(needle)]: the greatest index at which [needle] occurs,
    [-1] when it does not occur.  [i] is the index of the head of [s] in the
    whole string and [found] the last occurrence seen so far. *)
Fixpoint lastIndexOf_from (needle s : jsstring) (i found : Z) : Z :=
  let found' := if startsWith needle s then i else found in
  match s with
  | [] => found'
  | _ :: r => lastIndexOf_from needle r (i + 1) found'
  end.

Definition lastIndexOf (s needle : jsstring) : Z :=
  lastIndexOf_from needle s 0 (-1).

(** [s.slice(start, end)] and [s.slice(start)]: negative positions count
    from the end, and positions are cut to the length. *)
Definition slicePos (len pos : Z) : Z :=
  if pos <? 0 then Z.max (len + pos) 0 else Z.min pos len.

Definition slice (s : jsstring) (start end_ : Z) : jsstring :=
  let len := Z.of_nat (List.length s) in
  let from := slicePos len start in
  let to := slicePos len end_ in
  firstn (Z.to_nat (Z.max (to - from) 0)) (skipn (Z.to_nat from) s).

Definition sliceFrom (s : jsstring) (start : Z) : jsstring :=
  skipn (Z.to_nat (slicePos (Z.of_nat (List.length s)) start)) s.

(** [s.split(sep)] for a separator of one code unit; the empty string
    splits into one empty piece. *)
Fixpoint split (sep : code_unit) (s : jsstring) : list jsstring :=
  match s with
  | [] => [[]]
  | c :: r =>
      if (c =? sep)%N then [] :: split sep r
      else match split sep r with
           | l :: ls => (c :: l) :: ls
           | [] => [[c]]
           end
  end.

(** [pieces.join(sep)] *)
Fixpoint join (sep : jsstring) (pieces : list jsstring) : jsstring :=
  match pieces with
  | [] => []
  | [l] => l
  | l :: rest => l ++ sep ++ join sep rest
  end.

(** [s.replace(/-/g, "")] and the like: every occurrence of one code unit
    removed. *)
Definition removeAll (c : code_unit) (s : jsstring) : jsstring :=
  List.filter (fun d => negb (d =? c)%N) s.

End JS.
Import JS.

(** ** The text cleanup of the deterministic provider *)

(** The regular expression [<\|[^>]+?\|>] tried at the head of [s].
    [tagRest] is the loop of the lazy [[^>]+?] once a first code unit was
    consumed: it first tries to finish with [\|>], and consumes one more
    code unit other than [>] when that fails.  The result is what follows
    the match. *)
Fixpoint tagRest (s : jsstring) : option jsstring :=
  match s with
  | [] => None
  | c :: r =>
      match r with
      | d :: r' =>
          if (c =? PIPE)%N && (d =? GT)%N then Some r'
          else if (c =? GT)%N then None else tagRest r
      | [] => None
      end
  end.

Definition matchTag (s : jsstring) : option jsstring :=
  match s with
  | a :: b :: c :: r =>
      if (a =? LT)%N && (b =? PIPE)%N && negb (c =? GT)%N
      then tagRest r else None
  | _ => None
  end.

Lemma tagRest_shorter s r :
  tagRest s = Some r -> (List.length r < List.length s)%nat.
Proof.
  revert r. induction s as [|c s IH]; intros r; simpl; [discriminate|].
  destruct s as [|d s']; [discriminate|].
  destruct ((c =? PIPE)%N && (d =? GT)%N).
  - intros [= <-]. simpl. lia.
  - destruct (c =? GT)%N; [discriminate|].
    intros H. apply IH in H. simpl in *. lia.
Qed.

Lemma matchTag_shorter s r :
  matchTag s = Some r -> (List.length r < List.length s)%nat.
Proof.
  destruct s as [|a [|b [|c s]]]; simpl; try discriminate.
  destruct ((a =? LT)%N && (b =? PIPE)%N && negb (c =? GT)%N);
    [|discriminate].
  intros H. apply tagRest_shorter in H. lia.
Qed.

(** A value together with the equation that it is the value. *)
Definition inspect {A : Type} (a : A) : {b : A | a = b} := exist _ a eq_refl.

(** [s.replace(/<\|[^>]+?\|>/g, "")]: the string is scanned from the left;
    a match is dropped and the scan goes on after it, a code unit at which
    nothing matches is kept. *)
Equations? removeTags (s : jsstring) : jsstring by wf (List.length s) lt :=
  removeTags [] := [];
  removeTags (c :: r) with inspect (matchTag (c :: r)) := {
    | exist _ (Some rest) H := removeTags rest;
    | exist _ None _ := c :: removeTags r }.
Proof.
  - exact (matchTag_shorter (c :: r) rest H).
  - simpl; lia.
Qed.

(** [line.replace(/^\s*>\s?/, "")]: a greedy run of white space, a [>],
    and at most one more white space, at the start of the line. *)
Definition stripBlockquote (line : jsstring) : jsstring :=
  match trimStart line with
  | c :: rest =>
      if (c =? GT)%N then
        match rest with
        | d :: rest' => if isWhiteSpace d then rest' else rest
        | [] => []
        end
      else line
  | [] => line
  end.

Definition END_TAG : jsstring := lit "<|end|>".

(** Lines 289-290: the text kept after the last end marker. *)
Definition withoutPreceding (trimmed : jsstring) : jsstring :=
  let lastEndTag := lastIndexOf trimmed END_TAG in
  if negb (lastEndTag =? -1) then sliceFrom trimmed (lastEndTag + 6)
  else trimmed.

Definition parseEigenMessage (raw : jsstring) : jsstring :=
  let trimmed := trim raw in
  if isEmpty trimmed then trimmed
  else
    let cleanedTags := removeTags (withoutPreceding trimmed) in
    trim (join [LF] (map stripBlockquote (split LF cleanedTags))).

(** [needle] occurs somewhere in [s]. *)
Fixpoint occurs (needle s : jsstring) : bool :=
  startsWith needle s ||
  match s with
  | [] => false
  | _ :: r => occurs needle r
  end.

(** Already-clean text: no control marker can start in it (no [<]
    directly followed by [|]) and none of its lines begins with a blockquote
    marker (white space, then [>]). *)
Fixpoint hasTagOpen (s : jsstring) : bool :=
  match s with
  | [] => false
  | a :: r =>
      match r with
      | b :: _ => ((a =? LT)%N && (b =? PIPE)%N) || hasTagOpen r
      | [] => false
      end
  end.

Definition isQuoted (line : jsstring) : bool :=
  match trimStart line with
  | c :: _ => (c =? GT)%N
  | [] => false
  end.

Definition isClean (s : jsstring) : bool :=
  negb (hasTagOpen s) && forallb (fun l => negb (isQuoted l)) (split LF s).

Definition nl : string := String "010" EmptyString.

(** ** Numbers: [Number.parseInt] and the 32-bit [&] *)

(** The value of a digit or letter as [parseInt] reads it. *)
Definition digitValue (c : code_unit) : option Z :=
  if ((48 <=? c) && (c <=? 57))%N then Some (Z.of_N c - 48)
  else if ((97 <=? c) && (c <=? 122))%N then Some (Z.of_N c - 97 + 10)
  else if ((65 <=? c) && (c <=? 90))%N then Some (Z.of_N c - 65 + 10)
  else None.

(** The longest prefix of [s] made of digits of the radix. *)
Fixpoint radixDigits (radix : Z) (s : jsstring) : list Z :=
  match s with
  | [] => []
  | c :: r =>
      match digitValue c with
      | Some d => if d <? radix then d :: radixDigits radix r else []
      | None => []
      end
  end.

Definition stripSign (s : jsstring) : Z * jsstring :=
  match s with
  | c :: r =>
      if (c =? 45)%N then (-1, r)
      else if (c =? 43)%N then (1, r)
      else (1, s)
  | [] => (1, s)
  end.

Definition stripHexPrefix (s : jsstring) : option jsstring :=
  match s with
  | a :: b :: r =>
      if ((a =? 48) && ((b =? 120) || (b =? 88)))%N then Some r else None
  | _ => None
  end.

(** [Number.parseInt(s, radix)]; [None] is [NaN].  The integer that is
    read is returned, and [ofParse] below makes it the number it stands
    for; below 2^53 that is the integer itself, which holds for the at
    most eight digits [uuidToSeed] passes. *)
Definition parseInt (s : jsstring) (radix : Z) : option Z :=
  let '(sign, s1) := stripSign (trimStart s) in
  if negb (radix =? 0) && ((radix <? 2) || (36 <? radix)) then None
  else
    let '(r, s2) :=
      if (radix =? 0) || (radix =? 16) then
        match stripHexPrefix s1 with
        | Some rest => (16, rest)
        | None => (if radix =? 0 then 10 else radix, s1)
        end
      else (radix, s1) in
    match radixDigits r s2 with
    | [] => None
    | ds => Some (sign * fold_left (fun acc d => acc * r + d) ds 0)
    end.

(** [ToInt32]: reduction modulo 2^32 into [-2^31, 2^31). *)
Definition toInt32 (v : Z) : Z :=
  let m := v mod 2 ^ 32 in
  if 2 ^ 31 <=? m then m - 2 ^ 32 else m.

(** [a & b] on numbers with integer values. *)
Definition bitAnd (a b : Z) : Z := toInt32 (Z.land (toInt32 a) (toInt32 b)).

(** ** The seed derived from a UUID *)

Definition uuidHex (uuid : jsstring) : jsstring :=
  slice (removeAll MINUS uuid) 0 8.

Definition uuidToSeed (uuid : jsstring) : Z :=
  let hex := uuidHex uuid in
  let value :=
    match parseInt hex 16 with
    | Some v => if v =? 0 then 0 else v
    | None => 0
    end in
  bitAnd value 0x7fffffff.

(** The shape of a version-4 UUID, as [randomUUID] prints it: groups of 8,
    4, 4, 4 and 12 hexadecimal digits separated by hyphens, the version
    digit [4] and a variant digit among [8], [9], [a], [b]. *)
Definition isHexDigit (c : code_unit) : bool :=
  (((48 <=? c) && (c <=? 57)) || ((97 <=? c) && (c <=? 102))
   || ((65 <=? c) && (c <=? 70)))%N.

Fixpoint matchGroups (groups : list nat) (u : jsstring) : bool :=
  match groups with
  | [] => isEmpty u
  | n :: gs =>
      (List.length (firstn n u) =? n)%nat && forallb isHexDigit (firstn n u) &&
      match gs with
      | [] => isEmpty (skipn n u)
      | _ :: _ =>
          match skipn n u with
          | d :: r => (d =? MINUS)%N && matchGroups gs r
          | [] => false
          end
      end
  end.

Definition isUuidV4 (u : jsstring) : bool :=
  matchGroups [8; 4; 4; 4; 12]%nat u &&
  (nth 14 u 0 =? 52)%N &&
  existsb (N.eqb (nth 19 u 0%N)) (lit "89abAB").

(** The unsigned integer a string of hexadecimal digits denotes: each digit
    weighted by the power of sixteen of its position. *)
Definition hexDigitValue (c : code_unit) : Z :=
  match digitValue c with Some d => d | None => 0 end.

Fixpoint hexNumber (s : jsstring) : Z :=
  match s with
  | [] => 0
  | c :: r => hexDigitValue c * 16 ^ Z.of_nat (List.length r) + hexNumber r
  end.

(** ** JavaScript numbers

    [number] is the JavaScript number type with its three special values;
    a finite number is the rational it denotes (every double is one, and
    [Math.floor], [Math.max] and [Math.min] are exact on doubles).
    [jsonNumber] is what [JSON.parse] reads for a number of the request
    body: it reads no [NaN], and a literal too large for a double, such as
    [1e999], as an infinity. *)

Inductive number : Type :=
| NaN
| NegInf
| Fin (q : Q)
| PosInf.

Inductive jsonNumber : Type :=
| JNegInf
| JFin (q : Q)
| JPosInf.

Definition toNumber (j : jsonNumber) : number :=
  match j with
  | JNegInf => NegInf
  | JFin q => Fin q
  | JPosInf => PosInf
  end.

Definition ofZ (z : Z) : number := Fin (inject_Z z).

(** The integer nearest to [q], the even one of the two where [q] lies half
    way between them. *)
Definition roundHalfEven (q : Q) : Z :=
  let f := Qfloor q in
  match Qcompare (q - inject_Z f) (1 # 2) with
  | Lt => f
  | Gt => f + 1
  | Eq => if Z.even f then f else f + 1
  end.

(** For a positive [a], the [e] with [2^e <= a < 2^(e+1)]. *)
Definition binaryExponent (a : Q) : Z :=
  let e := Z.log2 (Qnum a) - Z.log2 (Zpos (Qden a)) in
  if Qle_bool (Qpower 2 e) a then e else e - 1.

(** The number a mathematical value becomes: the nearest double, the one
    with the even significand when two are equally near, and an infinity
    when that is 2^1024 or beyond.  Doubles have 53 significant bits and no
    binary exponent below -1022, where the spacing stays 2^-1074. *)
Definition roundToDouble (q : Q) : number :=
  if Qeq_bool q 0 then Fin 0
  else
    let a := Qabs q in
    let e := Z.max (binaryExponent a) (-1022) in
    let ulp := Qpower 2 (e - 52) in
    let v := Qred (inject_Z (roundHalfEven (a / ulp)) * ulp) in
    if Qle_bool (Qpower 2 1024) v
    then (if Qle_bool 0 q then PosInf else NegInf)
    else Fin (if Qle_bool 0 q then v else Qred (- v)).

(** [parseInt] gives a number: [NaN] when nothing is read, otherwise the
    double nearest to the integer that was read. *)
Definition ofParse (r : option Z) : number :=
  match r with
  | Some z => roundToDouble (inject_Z z)
  | None => NaN
  end.

Definition Math_floor (x : number) : number :=
  match x with
  | Fin q => ofZ (Qfloor q)
  | _ => x
  end.

Definition Math_max (a b : number) : number :=
  match a, b with
  | NaN, _ | _, NaN => NaN
  | PosInf, _ | _, PosInf => PosInf
  | NegInf, y => y
  | x, NegInf => x
  | Fin p, Fin q => if Qle_bool p q then b else a
  end.

Definition Math_min (a b : number) : number :=
  match a, b with
  | NaN, _ | _, NaN => NaN
  | NegInf, _ | _, NegInf => NegInf
  | PosInf, y => y
  | x, PosInf => x
  | Fin p, Fin q => if Qle_bool p q then a else b
  end.

(** Lines 301-303. *)
Definition clamp (value min max : number) : number :=
  Math_min (Math_max value min) max.

(** [Array.from({ length: x }, ...)] first takes [ToLength] of [x], that
    is [x] without its fraction, cut to the range from 0 to 2^53 - 1 (below
    zero the floor and the truncation are both cut to 0), and creates an
    array of that length, which throws a [RangeError] from 2^32 on. *)
Definition MAX_SAFE_INTEGER : Z := 2 ^ 53 - 1.
Definition MAX_ARRAY_LENGTH : Z := 2 ^ 32 - 1.

Definition toLength (x : number) : Z :=
  match x with
  | NaN | NegInf => 0
  | PosInf => MAX_SAFE_INTEGER
  | Fin q => Z.min (Z.max (Qfloor q) 0) MAX_SAFE_INTEGER
  end.

(** The length of the array [Array.from] creates; [None] when it throws. *)
Definition arrayLength (x : number) : option nat :=
  if toLength x <=? MAX_ARRAY_LENGTH then Some (Z.to_nat (toLength x))
  else None.

(** ** Strings as numbers

    [StringToNumber] of ECMA-262, which [Math.floor] applies to an argument
    that is a string: white space around the text is dropped, the empty
    text is 0, a text that is a numeric literal is its value rounded to a
    double and any other text is [NaN].  The literals are the decimal ones,
    with an optional sign, fraction and exponent, [Infinity] with an
    optional sign, and the unsigned binary, octal and hexadecimal integers
    after [0b], [0o] and [0x]. *)

Fixpoint sameText (a b : jsstring) : bool :=
  match a, b with
  | [], [] => true
  | c :: r, d :: t => (c =? d)%N && sameText r t
  | _, _ => false
  end.

Definition valueOfDigits (radix : Z) (ds : list Z) : Z :=
  fold_left (fun acc d => acc * radix + d) ds 0.

(** The digits at the start of [s] and what follows them. *)
Definition takeDigits (radix : Z) (s : jsstring) : list Z * jsstring :=
  let ds := radixDigits radix s in (ds, skipn (List.length ds) s).

(** The exponent part that ends a decimal literal: [e] or [E], an optional
    sign and digits; 0 when nothing is left. *)
Definition exponentPart (s : jsstring) : option Z :=
  match s with
  | [] => Some 0
  | c :: r =>
      if ((c =? 101) || (c =? 69))%N then
        let '(sign, r1) := stripSign r in
        match takeDigits 10 r1 with
        | ((_ :: _) as ds, []) => Some (sign * valueOfDigits 10 ds)
        | _ => None
        end
      else None
  end.

(** Digits, a point and digits, of which one of the two runs of digits may
    be missing, and an exponent part. *)
Definition unsignedDecimal (s : jsstring) : option number :=
  if sameText s (lit "Infinity") then Some PosInf
  else
    let '(ip, r1) := takeDigits 10 s in
    let '(fp, r2) :=
      match r1 with
      | c :: r => if (c =? 46)%N then takeDigits 10 r else ([], r1)
      | [] => ([], r1)
      end in
    match ip ++ fp, exponentPart r2 with
    | (_ :: _) as ds, Some e =>
        Some (roundToDouble
                (inject_Z (valueOfDigits 10 ds)
                 * Qpower 10 (e - Z.of_nat (List.length fp))))
    | _, _ => None
    end.

Definition negate (x : number) : number :=
  match x with
  | NaN => NaN
  | NegInf => PosInf
  | PosInf => NegInf
  | Fin q => Fin (Qred (- q))
  end.

Definition strDecimalLiteral (s : jsstring) : option number :=
  match s with
  | c :: r =>
      if (c =? 45)%N then option_map negate (unsignedDecimal r)
      else if (c =? 43)%N then unsignedDecimal r
      else unsignedDecimal s
  | [] => None
  end.

Definition nonDecimalLiteral (s : jsstring) : option number :=
  match s with
  | a :: b :: r =>
      let radix :=
        if ((b =? 120) || (b =? 88))%N then 16
        else if ((b =? 111) || (b =? 79))%N then 8
        else if ((b =? 98) || (b =? 66))%N then 2
        else 0 in
      if (a =? 48)%N && negb (radix =? 0) then
        match takeDigits radix r with
        | ((_ :: _) as ds, []) =>
            Some (roundToDouble (inject_Z (valueOfDigits radix ds)))
        | _ => None
        end
      else None
  | _ => None
  end.

Definition StringToNumber (s : jsstring) : number :=
  let t := trim s in
  if isEmpty t then Fin 0
  else
    match nonDecimalLiteral t with
    | Some v => v
    | None => default NaN (strDecimalLiteral t)
    end.

(** ** JSON values

    [safeJson] (lines 268-276) returns what [JSON.parse] reads, cast to the
    type of the request without any check: a property of the body can hold
    any JSON value, whatever its declared type. *)

Local Set Warnings "-register-all".

Inductive json : Type :=
| JNull
| JBool (b : bool)
| JNumber (n : jsonNumber)
| JString (s : jsstring)
| JArray (items : list json)
| JObject (members : list (jsstring * json)).

(** What the handler throws outside the [try] of line 95: the call of
    [POST] is rejected and no response of the handler reaches the caller. *)
Inductive Uncaught : Type := TypeError.

(** The object has a property of its own with this name. *)
Definition hasOwn (key : string) (members : list (jsstring * json)) : bool :=
  existsb (fun m => sameText (fst m) (lit key)) members.

(** [ToPrimitive] finds no primitive value and throws a [TypeError].  An
    object read by [JSON.parse] inherits [valueOf], which returns the object
    itself, and [toString], which returns ["[object Object]"]; a property
    [toString] of its own hides the latter and, being a JSON value, cannot
    be called.  An array is turned into a string by joining the strings of
    its items, so it has none when one of its items has none. *)
Fixpoint noPrimitive (v : json) : bool :=
  match v with
  | JObject members => hasOwn "toString" members
  | JArray items => existsb noPrimitive items
  | _ => false
  end.

(** [StringToNumber] of the string of a value that has one.  The strings
    ["null"], ["true"], ["false"] and ["[object Object]"] are no numeric
    literals; the string of a number reads back as that number; an array
    joins the strings of its items with commas, [null] giving the empty
    string, and a comma is part of no numeric literal. *)
Fixpoint numberOfText (v : json) : number :=
  match v with
  | JNull | JBool _ | JObject _ => NaN
  | JNumber n => toNumber n
  | JString s => StringToNumber s
  | JArray [] => Fin 0
  | JArray [JNull] => Fin 0
  | JArray [item] => numberOfText item
  | JArray (_ :: _ :: _) => NaN
  end.

(** [ToNumber], as [Math.floor] applies it to its argument. *)
Definition ToNumber (v : json) : Uncaught + number :=
  match v with
  | JNull => inr (Fin 0)
  | JBool b => inr (Fin (if b then 1 else 0))
  | JNumber n => inr (toNumber n)
  | JString s => inr (StringToNumber s)
  | JArray _ | JObject _ =>
      if noPrimitive v then inl TypeError else inr (numberOfText v)
  end.

(** [Number.isFinite(x)] for a property of the body: it converts nothing,
    and holds of finite numbers only. *)
Definition Number_isFinite (x : option json) : bool :=
  match x with
  | Some (JNumber (JFin _)) => true
  | _ => false
  end.

(** A value handed to [JSON.stringify]: a value of the body as it was read,
    or a number that was computed. *)
Inductive jsvalue : Type :=
| Parsed (j : json)
| Computed (n : number).

(** ** The request, the configuration and the upstream data *)

(** The module [@/lib/constants] is not among the sources: its four
    constants are a parameter of the handler.  The run bounds are taken to
    be integers. *)
Record Constants : Type := {
  OPENAI_MODEL : jsstring;
  EIGENAI_MODEL : jsstring;
  MIN_RUNS : Z;
  MAX_RUNS : Z
}.

(** The five properties the handler reads of the body, each [None] where
    the body has no such property (reading it gives [undefined]) and
    otherwise the JSON value it holds, of whatever type.  A body that is
    not an object (a number, a string, an array...) has none of them. *)
Record CompareRequest : Type := {
  prompt : option json;
  runs : option json;
  eigenSeed : option json;
  openaiMaxTokens : option json;
  eigenMaxTokens : option json
}.

Definition emptyRequest : CompareRequest :=
  {| prompt := None; runs := None; eigenSeed := None;
     openaiMaxTokens := None; eigenMaxTokens := None |}.

(** The value of a property of an object as [JSON.parse] builds it: of
    members with the same name the last one counts. *)
Fixpoint property (key : string) (members : list (jsstring * json))
    : option json :=
  match members with
  | [] => None
  | m :: rest =>
      match property key rest with
      | Some v => Some v
      | None => if sameText (fst m) (lit key) then Some (snd m) else None
      end
  end.

(** What the handler reads of a body that [JSON.parse] has read. *)
Definition propertiesOf (parsed : json) : CompareRequest :=
  match parsed with
  | JObject members =>
      {| prompt := property "prompt" members;
         runs := property "runs" members;
         eigenSeed := property "eigenSeed" members;
         openaiMaxTokens := property "openaiMaxTokens" members;
         eigenMaxTokens := property "eigenMaxTokens" members |}
  | _ => emptyRequest
  end.

(** An object with the properties of a request. *)
Definition member (key : string) (x : option json)
    : list (jsstring * json) :=
  match x with
  | Some v => [(lit key, v)]
  | None => []
  end.

Definition bodyOf (b : CompareRequest) : json :=
  JObject (member "prompt" (prompt b) ++ member "runs" (runs b)
           ++ member "eigenSeed" (eigenSeed b)
           ++ member "openaiMaxTokens" (openaiMaxTokens b)
           ++ member "eigenMaxTokens" (eigenMaxTokens b)).

(** [process.env] *)
Record Env : Type := {
  OPENAI_API_KEY : option jsstring;
  EIGENAI_API_KEY : option jsstring;
  NEXT_PUBLIC_EIGENAI_DEFAULT_SEED : option jsstring;
  OPENAI_MAX_TOKENS : option jsstring;
  EIGENAI_MAX_TOKENS : option jsstring;
  OPENAI_API_URL : option jsstring;
  EIGENAI_API_URL : option jsstring
}.

Record Usage : Type := {
  prompt_tokens : option number;
  completion_tokens : option number;
  total_tokens : option number
}.

Record ChatMessage : Type := { content : option jsstring }.

Record ChatChoice : Type := {
  choice_message : option ChatMessage;
  finish_reason : option jsstring
}.

Record ChatResponse : Type := {
  data_id : option jsstring;
  choices : option (list ChatChoice);
  data_usage : option Usage
}.

Inductive Provider : Type := OpenAI | EigenAI.

(** What a [fetch] comes to: it rejects (the transport failed, or the abort
    signal of the time-out fired), or it gives a response with a status, a
    body text and the data the text parses to ([None] where the text is not
    the JSON of an object, on which the run throws). *)
Inductive FetchError : Type :=
| NetworkError (reason : jsstring)
| AbortError.

Inductive FetchOutcome : Type :=
| Rejects (e : FetchError)
| Responds (status : Z) (text : jsstring) (json : option ChatResponse).

(** What a run throws. [HttpError p status message] is the
    [new Error(`... HTTP ${status}: ${message}`)] of provider [p];
    [RangeError] is what [Array.from] throws for a length it cannot create. *)
Inductive Failure : Type :=
| FetchRejected (e : FetchError)
| HttpError (p : Provider) (status : Z) (message : jsstring)
| JsonError
| RangeError.

(** One entry of [responses]. *)
Record RunResult : Type := {
  responseId : option jsstring;
  message : jsstring;
  finishReason : option jsstring;
  usage : option Usage
}.

(** A result group.  The group of the first provider has no [seed] and no
    [seedUuid]; the seeded group has an undefined [seedUuid]. *)
Record Group : Type := {
  model : jsstring;
  seed : option number;
  group_runs : number;
  responses : list RunResult;
  seedUuid : option jsstring
}.

Inductive Body : Type :=
| ErrorBody (error : jsstring)
| Comparison (prompt : jsstring) (openai eigen eigenRandom : Group).

(** [NextResponse.json(body, { status })] *)
Record Response : Type := { status : Z; body : Body }.

(** The request of one upstream call. *)
Record UpstreamRequest : Type := {
  provider : Provider;
  endpoint : jsstring;
  apiKey : jsstring;
  req_model : jsstring;
  req_prompt : jsstring;
  max_tokens : jsvalue;
  req_seed : option number;
  timeout_ms : option Z
}.

Definition OPENAI_DEFAULT_URL : jsstring :=
  lit "https://api.openai.com/v1/chat/completions".
Definition EIGEN_DEFAULT_URL : jsstring :=
  lit "https://eigenai.eigencloud.xyz/v1/chat/completions".
Definition OPENAI_TIMEOUT_MS : Z := 20000.

(** [response.ok] *)
Definition ok (status : Z) : bool := (200 <=? status) && (status <=? 299).

(** Lines 278-281. *)
Definition extractMessage (data : ChatResponse) : option jsstring :=
  match choices data with
  | Some (choice :: _) =>
      match choice_message choice with
      | Some m => option_map trim (content m)
      | None => None
      end
  | _ => None
  end.

(** [data.choices?.[0]?.finish_reason] *)
Definition firstFinishReason (data : ChatResponse) : option jsstring :=
  match choices data with
  | Some (choice :: _) => finish_reason choice
  | _ => None
  end.

(** The body of a run once its [fetch] has settled: lines 171-182 for the
    first provider, lines 254-265 for the second, which also cleans the
    message. *)
Definition runOf (p : Provider) (o : FetchOutcome) : Failure + RunResult :=
  match o with
  | Rejects e => inl (FetchRejected e)
  | Responds st text json =>
      if negb (ok st) then inl (HttpError p st text)
      else
        match json with
        | None => inl JsonError
        | Some data =>
            let raw := default [] (extractMessage data) in
            inr {| responseId := data_id data;
                   message := match p with
                              | OpenAI => raw
                              | EigenAI => parseEigenMessage raw
                              end;
                   finishReason := firstFinishReason data;
                   usage := data_usage data |}
        end
  end.

(** ** [Promise.all]

    [Promise.all] over [n] promises keeps one slot per promise.  When a
    promise fulfils, its value is stored in the slot of its index; once
    every slot is filled the joint promise fulfils with the values in index
    order.  When a promise rejects, the joint promise rejects with that
    reason.  A settled joint promise never changes. *)

Section PromiseAll.

Context {E A : Type}.

Record PromiseAll : Type := {
  slots : list (option A);
  settled : option (E + list A)
}.

Definition fulfilment (sl : list (option A)) : option (E + list A) :=
  match mapM (fun slot => slot) sl with
  | Some values => Some (inr values)
  | None => None
  end.

Definition Promise_all (n : nat) : PromiseAll :=
  {| slots := replicate n None; settled := fulfilment (replicate n None) |}.

Definition settles (i : nat) (r : E + A) (p : PromiseAll) : PromiseAll :=
  match settled p with
  | Some _ => p
  | None =>
      match r with
      | inl e => {| slots := slots p; settled := Some (inl e) |}
      | inr v =>
          let sl := <[i := Some v]> (slots p) in
          {| slots := sl; settled := fulfilment sl |}
      end
  end.

End PromiseAll.

Arguments PromiseAll : clear implicits.

(** ** The handler *)

Inductive GroupId : Type := G_openai | G_eigen | G_eigenRandom.

(** A call is named by its group and its run index. *)
Definition CallId : Type := GroupId * nat.

(** The world of one request: the environment, the UUID [randomUUID]
    returns, what every upstream call comes to, and the order in which the
    runs settle.  A call that is not in [completions] never settles. *)
Record World : Type := {
  env : Env;
  randomUUID : jsstring;
  fetched : CallId -> FetchOutcome;
  completions : list CallId
}.

Definition providerOf (g : GroupId) : Provider :=
  match g with
  | G_openai => OpenAI
  | G_eigen | G_eigenRandom => EigenAI
  end.

Definition GroupId_eqb (g h : GroupId) : bool :=
  match g, h with
  | G_openai, G_openai | G_eigen, G_eigen | G_eigenRandom, G_eigenRandom => true
  | _, _ => false
  end.

(** The three groups in flight and the [Promise.all] of line 96 that joins
    them: it rejects with the first group that rejects and fulfils when the
    three have fulfilled. *)
Definition Joint : Type :=
  option (Failure + (list RunResult * list RunResult * list RunResult)).

Record Fanout : Type := {
  group : GroupId -> PromiseAll Failure RunResult;
  joint : Joint
}.

Definition join3 (a b c : option (Failure + list RunResult)) : Joint :=
  match a, b, c with
  | Some (inl e), _, _ => Some (inl e)
  | _, Some (inl e), _ => Some (inl e)
  | _, _, Some (inl e) => Some (inl e)
  | Some (inr x), Some (inr y), Some (inr z) => Some (inr (x, y, z))
  | _, _, _ => None
  end.

Definition rejoin (groups : GroupId -> PromiseAll Failure RunResult)
    (previous : Joint) : Fanout :=
  {| group := groups;
     joint := match previous with
              | Some j => Some j
              | None => join3 (settled (groups G_openai))
                              (settled (groups G_eigen))
                              (settled (groups G_eigenRandom))
              end |}.

Definition start (n : nat) : Fanout :=
  rejoin (fun _ => Promise_all n) None.

(** A run settles.  Only the [n] runs that were started can. *)
Definition complete (n : nat) (fetched : CallId -> FetchOutcome)
    (f : Fanout) (c : CallId) : Fanout :=
  if (snd c <? n)%nat then
    let r := runOf (providerOf (fst c)) (fetched c) in
    rejoin (fun g => if GroupId_eqb g (fst c)
                     then settles (snd c) r (group f g)
                     else group f g)
           (joint f)
  else f.

Definition fanout (n : nat) (w : World) : Fanout :=
  fold_left (complete n (fetched w)) (completions w) (start n).

(** What the handler has done: the upstream calls it issued, the response
    it returns ([None]: it is still waiting, or it has thrown), the error
    it logged, and what it has thrown without catching it. *)
Record Outcome : Type := {
  issued : list UpstreamRequest;
  response : option Response;
  logged : option Failure;
  thrown : option Uncaught
}.

Definition answer (st : Z) (msg : string) : Outcome :=
  {| issued := [];
     response := Some {| status := st; body := ErrorBody (lit msg) |};
     logged := None; thrown := None |}.

Definition throws (e : Uncaught) : Outcome :=
  {| issued := []; response := None; logged := None; thrown := Some e |}.

(** A credential is missing: [!s] holds of it, it is undefined or empty. *)
Definition missing (s : option jsstring) : bool :=
  match s with
  | None => true
  | Some t => isEmpty t
  end.

(** [body.prompt?.trim()] of line 43: [undefined] ([None]) for a prompt
    that is missing or [null], the trimmed text for a string; any other
    value has no method [trim], and calling it throws. *)
Definition trimmedPrompt (x : option json) : Uncaught + option jsstring :=
  match x with
  | None | Some JNull => inr None
  | Some (JString text) => inr (Some (trim text))
  | Some _ => inl TypeError
  end.

(** Line 72: [??] replaces a value that is missing or [null], and
    [Math.floor] converts its argument to a number. *)
Definition effectiveRuns (K : Constants) (r : option json)
    : Uncaught + number :=
  match
    match r with
    | None | Some JNull => inr (ofZ 4)
    | Some x => ToNumber x
    end
  with
  | inl e => inl e
  | inr x => inr (clamp (Math_floor x) (ofZ (MIN_RUNS K)) (ofZ (MAX_RUNS K)))
  end.

(** Lines 73-79. *)
Definition eigenSeedOf (x : option json) (v : option jsstring) : number :=
  if Number_isFinite x
  then Math_floor (match x with Some (JNumber n) => toNumber n | _ => NaN end)
  else ofParse (parseInt (default (lit "42") v) 10).

(** [x ?? parseInt(process.env.V ?? "256", 10)] *)
Definition maxTokensOf (x : option json) (v : option jsstring) : jsvalue :=
  match x with
  | None | Some JNull => Computed (ofParse (parseInt (default (lit "256") v) 10))
  | Some t => Parsed t
  end.

(** [process.env.V?.trim() || fallback] *)
Definition endpointOf (v : option jsstring) (fallback : jsstring) : jsstring :=
  match v with
  | Some u => if isEmpty (trim u) then fallback else trim u
  | None => fallback
  end.

(** The response of the [catch] of lines 132-138. *)
Definition GENERIC_FAILURE : Response :=
  {| status := 500;
     body :=
       ErrorBody
         (lit "Failed to compare models. Check server logs for details.") |}.

(** Lines 69-138 of [POST]: what the handler does once the prompt and the
    two keys are there. *)
Definition runComparison (K : Constants) (body : CompareRequest)
    (prompt openaiKey eigenKey : jsstring) (w : World) : Outcome :=
  match effectiveRuns K (runs body) with
  | inl e => throws e
  | inr runs =>
  let eigenSeed :=
    eigenSeedOf (eigenSeed body) (NEXT_PUBLIC_EIGENAI_DEFAULT_SEED (env w)) in
  let openaiMaxTokens :=
    maxTokensOf (openaiMaxTokens body) (OPENAI_MAX_TOKENS (env w)) in
  let eigenMaxTokens :=
    maxTokensOf (eigenMaxTokens body) (EIGENAI_MAX_TOKENS (env w)) in
  let randomSeedUuid := randomUUID w in
  let randomSeed := ofZ (uuidToSeed randomSeedUuid) in
  let openaiEndpoint :=
    endpointOf (OPENAI_API_URL (env w)) OPENAI_DEFAULT_URL in
  let eigenEndpoint :=
    endpointOf (EIGENAI_API_URL (env w)) EIGEN_DEFAULT_URL in
  let openaiCall :=
    {| provider := OpenAI; endpoint := openaiEndpoint;
       apiKey := openaiKey; req_model := OPENAI_MODEL K;
       req_prompt := prompt; max_tokens := openaiMaxTokens;
       req_seed := None; timeout_ms := Some OPENAI_TIMEOUT_MS |} in
  let eigenCall (sd : number) :=
    {| provider := EigenAI; endpoint := eigenEndpoint;
       apiKey := eigenKey; req_model := EIGENAI_MODEL K;
       req_prompt := prompt; max_tokens := eigenMaxTokens;
       req_seed := Some sd; timeout_ms := None |} in
  match arrayLength runs with
  | None =>
      {| issued := []; response := Some GENERIC_FAILURE;
         logged := Some RangeError; thrown := None |}
  | Some n =>
      let calls :=
        replicate n openaiCall ++ replicate n (eigenCall eigenSeed)
        ++ replicate n (eigenCall randomSeed) in
      match joint (fanout n w) with
      | Some (inr (openaiRuns, eigenRuns, randomRuns)) =>
          {| issued := calls;
             response :=
               Some {| status := 200;
                       body :=
                         Comparison prompt
                           {| model := OPENAI_MODEL K; seed := None;
                              group_runs := runs; responses := openaiRuns;
                              seedUuid := None |}
                           {| model := EIGENAI_MODEL K;
                              seed := Some eigenSeed; group_runs := runs;
                              responses := eigenRuns; seedUuid := None |}
                           {| model := EIGENAI_MODEL K;
                              seed := Some randomSeed; group_runs := runs;
                              responses := randomRuns;
                              seedUuid := Some randomSeedUuid |} |};
             logged := None; thrown := None |}
      | Some (inl e) =>
          {| issued := calls; response := Some GENERIC_FAILURE;
             logged := Some e; thrown := None |}
      | None =>
          {| issued := calls; response := None; logged := None;
             thrown := None |}
      end
  end
  end.

(** [parsed] is what [safeJson] returns: [None] for an empty or malformed
    body. *)
Definition POST (K : Constants) (parsed : option CompareRequest) (w : World)
    : Outcome :=
  let body := default emptyRequest parsed in
  match trimmedPrompt (prompt body) with
  | inl e => throws e
  | inr None | inr (Some []) => answer 400 "Prompt is required."
  | inr (Some prompt) =>
      match OPENAI_API_KEY (env w), EIGENAI_API_KEY (env w) with
      | None, _ | Some [], _ =>
          answer 500 "Missing OPENAI_API_KEY environment variable."
      | Some _, None | Some _, Some [] =>
          answer 500 "Missing EIGENAI_API_KEY environment variable."
      | Some openaiKey, Some eigenKey =>
          runComparison K body prompt openaiKey eigenKey w
      end
  end.

(** ** Reference notions of the specification *)

(** The text after the last end marker, as the specification words it:
    everything up to and including the marker is discarded. *)
Definition textAfterLastMarker (trimmed : jsstring) : jsstring :=
  let lastEndTag := lastIndexOf trimmed END_TAG in
  if negb (lastEndTag =? -1)
  then sliceFrom trimmed (lastEndTag + Z.of_nat (List.length END_TAG))
  else trimmed.

(** The nearest value to [v] in the range from [lo] to [hi]. *)
Definition nearestInRange (lo hi v : Z) : Z :=
  if v <? lo then lo else if hi <? v then hi else v.

(** A request without a usable prompt: no body, no prompt, or a prompt of
    white space only. *)
Definition blankPrompt (parsed : option CompareRequest) : bool :=
  match parsed with
  | Some b =>
      match prompt b with
      | Some (JString p) => forallb isWhiteSpace p
      | Some JNull | None => true
      | Some _ => false
      end
  | None => true
  end.

(** A request with a prompt: a string that is not of white space only. *)
Definition hasPrompt (parsed : option CompareRequest) : bool :=
  match parsed with
  | Some b =>
      match prompt b with
      | Some (JString p) => negb (forallb isWhiteSpace p)
      | _ => false
      end
  | None => false
  end.

(** The run count of the request is a value [Math.floor] can convert. *)
Definition runsConvert (parsed : option CompareRequest) : bool :=
  match runs (default emptyRequest parsed) with
  | Some v => negb (noPrimitive v)
  | None => true
  end.

(** The result of run [i] of group [g], and the first rejection in the
    order in which the runs settle. *)
Definition resultOf (fetched : CallId -> FetchOutcome) (g : GroupId) (i : nat)
    : Failure + RunResult :=
  runOf (providerOf g) (fetched (g, i)).

Fixpoint firstRejection (n : nat) (fetched : CallId -> FetchOutcome)
    (cs : list CallId) : option Failure :=
  match cs with
  | [] => None
  | c :: rest =>
      if (snd c <? n)%nat then
        match resultOf fetched (fst c) (snd c) with
        | inl e => Some e
        | inr _ => firstRejection n fetched rest
        end
      else firstRejection n fetched rest
  end.

(** [vs] lists the results of the [n] runs of group [g] by run index. *)
Definition inRunOrder (n : nat) (fetched : CallId -> FetchOutcome)
    (g : GroupId) (vs : list RunResult) : Prop :=
  List.length vs = n /\
  forall i v, vs !! i = Some v -> resultOf fetched g i = inr v.

(** An upstream call fails: a transport failure or a time-out, or a status
    that is not 2xx. *)
Definition upstreamFails (o : FetchOutcome) : bool :=
  match o with
  | Rejects _ => true
  | Responds st _ _ => negb (ok st)
  end.

(** The bounds the specification gives as an example, 1 and 8. *)
Definition exampleConstants : Constants :=
  {| OPENAI_MODEL := lit "gpt-4o-mini"; EIGENAI_MODEL := lit "gpt-oss-120b-f16";
     MIN_RUNS := 1; MAX_RUNS := 8 |}.

(** A world for the examples: both keys set, every call answered with
    status 200 and one choice whose text ends with the digit of the run
    index, and the six runs of a request for two runs settling in the
    reverse of the order they were started in. *)
Definition exampleEnv : Env :=
  {| OPENAI_API_KEY := Some (lit "sk-a"); EIGENAI_API_KEY := Some (lit "sk-b");
     NEXT_PUBLIC_EIGENAI_DEFAULT_SEED := None; OPENAI_MAX_TOKENS := None;
     EIGENAI_MAX_TOKENS := None; OPENAI_API_URL := None;
     EIGENAI_API_URL := None |}.

Definition exampleReply (c : CallId) : FetchOutcome :=
  Responds 200 []
    (Some {| data_id := None;
             choices :=
               Some [{| choice_message :=
                          Some {| content :=
                                    Some (lit "> Tokyo "
                                          ++ [N.of_nat (48 + snd c)]) |};
                        finish_reason := Some (lit "stop") |}];
             data_usage := None |}).

Definition exampleRequest : CompareRequest :=
  {| prompt := Some (JString (lit " hello "));
     runs := Some (JNumber (JFin (5 # 2)));
     eigenSeed := None; openaiMaxTokens := None; eigenMaxTokens := None |}.

(** The same request with a run count that is not a number, and with one
    that is too large for a double. *)
Definition textRunsRequest : CompareRequest :=
  {| prompt := Some (JString (lit " hello "));
     runs := Some (JString (lit "abc"));
     eigenSeed := None; openaiMaxTokens := None; eigenMaxTokens := None |}.

Definition hugeRunsRequest : CompareRequest :=
  {| prompt := Some (JString (lit " hello "));
     runs := Some (JNumber JPosInf);
     eigenSeed := None; openaiMaxTokens := None; eigenMaxTokens := None |}.

Definition reversedCompletions : list CallId :=
  [(G_eigenRandom, 1); (G_eigenRandom, 0); (G_eigen, 1); (G_eigen, 0);
   (G_openai, 1); (G_openai, 0)]%nat.

Definition exampleWorld : World :=
  {| env := exampleEnv;
     randomUUID := lit "9b1deb4d-3b7d-4bad-9bdd-2b0d7b3dcb6d";
     fetched := exampleReply;
     completions := reversedCompletions |}.

(** The same world with the second run of the seeded group answered with
    status 503. *)
Definition failingWorld : World :=
  {| env := exampleEnv;
     randomUUID := lit "9b1deb4d-3b7d-4bad-9bdd-2b0d7b3dcb6d";
     fetched := fun c =>
       match c with
       | (G_eigen, 1%nat) => Responds 503 (lit "overloaded") None
       | _ => exampleReply c
       end;
     completions := reversedCompletions |}.

(** No key is set. *)
Definition noKeysWorld : World :=
  {| env := {| OPENAI_API_KEY := None; EIGENAI_API_KEY := None;
               NEXT_PUBLIC_EIGENAI_DEFAULT_SEED := None;
               OPENAI_MAX_TOKENS := None; EIGENAI_MAX_TOKENS := None;
               OPENAI_API_URL := None; EIGENAI_API_URL := None |};
     randomUUID := lit "9b1deb4d-3b7d-4bad-9bdd-2b0d7b3dcb6d";
     fetched := exampleReply;
     completions := [] |}.

(** The number of runs the handler starts in each group. *)
Definition runCount (K : Constants) (parsed : option CompareRequest) : nat :=
  match effectiveRuns K (runs (default emptyRequest parsed)) with
  | inr x => default 0%nat (arrayLength x)
  | inl _ => 0%nat
  end.

(** ** Invariants of the fan-out

    The invariant of a group of [n] runs: one slot per run, a filled slot
    holds the result of its run, and the group is settled as its slots say,
    unless a run of the group was rejected. *)
Definition sound (n : nat) (fetched : CallId -> FetchOutcome) (g : GroupId)
    (p : PromiseAll Failure RunResult) : Prop :=
  List.length (slots p) = n /\
  (forall i v, slots p !! i = Some (Some v) -> resultOf fetched g i = inr v) /\
  (settled p = fulfilment (slots p) \/
   exists e i, settled p = Some (inl e) /\ (i < n)%nat /\
               resultOf fetched g i = inl e).

(** A settled joint promise agrees with the groups: fulfilled, it holds
    what the three groups fulfilled with; rejected, its reason is the
    rejection of a run. *)
Definition jointSoundFor (n : nat) (fetched : CallId -> FetchOutcome)
    (groups : GroupId -> PromiseAll Failure RunResult) (j : Joint) : Prop :=
  match j with
  | None => True
  | Some (inr (x, y, z)) =>
      settled (groups G_openai) = Some (inr x) /\
      settled (groups G_eigen) = Some (inr y) /\
      settled (groups G_eigenRandom) = Some (inr z)
  | Some (inl e) =>
      exists g i, (i < n)%nat /\ resultOf fetched g i = inl e
  end.

Definition consistent (n : nat) (fetched : CallId -> FetchOutcome)
    (f : Fanout) : Prop :=
  (forall g, sound n fetched g (group f g)) /\
  jointSoundFor n fetched (group f) (joint f) /\
  (joint f = None ->
   join3 (settled (group f G_openai)) (settled (group f G_eigen))
         (settled (group f G_eigenRandom)) = None).

(** Slot [i] of group [g] holds a result. *)
Definition filled (f : Fanout) (g : GroupId) (i : nat) : Prop :=
  exists v, slots (group f g) !! i = Some (Some v).

(** ** Further notions used by the properties of the cleanup *)

(** A text has no white space at either end: it is empty, or neither its
    first nor its last code unit is white space. *)
Definition edgesClean (s : jsstring) : bool :=
  match s with
  | [] => true
  | c :: _ => negb (isWhiteSpace c) && negb (isWhiteSpace (List.last s c))
  end.

(** The code unit [c] does not occur in [s]. *)
Definition lacks (c : code_unit) (s : jsstring) : bool :=
  forallb (fun d => negb (d =? c)%N) s.

(** A line with a markdown blockquote marker in front: [>] and a space. *)
Definition quoteLine (line : jsstring) : jsstring := lit "> " ++ line.

(** A control token [<|name|>]. *)
Definition controlToken (name : jsstring) : jsstring :=
  lit "<|" ++ name ++ lit "|>".

(** ** Further notions used by the properties of the handler *)

(** The request of a run of the first provider and of a run of the second
    provider with seed [sd], as [runComparison] builds them. *)
Definition openaiCallOf (K : Constants) (body : CompareRequest)
    (prompt openaiKey : jsstring) (w : World) : UpstreamRequest :=
  {| provider := OpenAI;
     endpoint := endpointOf (OPENAI_API_URL (env w)) OPENAI_DEFAULT_URL;
     apiKey := openaiKey; req_model := OPENAI_MODEL K;
     req_prompt := prompt;
     max_tokens :=
       maxTokensOf (openaiMaxTokens body) (OPENAI_MAX_TOKENS (env w));
     req_seed := None; timeout_ms := Some OPENAI_TIMEOUT_MS |}.

Definition eigenCallOf (K : Constants) (body : CompareRequest)
    (prompt eigenKey : jsstring) (w : World) (sd : number)
    : UpstreamRequest :=
  {| provider := EigenAI;
     endpoint := endpointOf (EIGENAI_API_URL (env w)) EIGEN_DEFAULT_URL;
     apiKey := eigenKey; req_model := EIGENAI_MODEL K;
     req_prompt := prompt;
     max_tokens :=
       maxTokensOf (eigenMaxTokens body) (EIGENAI_MAX_TOKENS (env w));
     req_seed := Some sd; timeout_ms := None |}.

(** The seed of the seeded group. *)
Definition chosenSeed (body : CompareRequest) (w : World) : number :=
  eigenSeedOf (eigenSeed body) (NEXT_PUBLIC_EIGENAI_DEFAULT_SEED (env w)).

(** The four error texts of the handler. *)
Definition errorTexts : list jsstring :=
  [lit "Prompt is required.";
   lit "Missing OPENAI_API_KEY environment variable.";
   lit "Missing EIGENAI_API_KEY environment variable.";
   lit "Failed to compare models. Check server logs for details."].

(** ** The page: [src/app/page.tsx]

    The page keeps the form in React state and sends it to the handler.
    Its state and its event handlers are modelled as a record and functions
    from state to state.  Numbers of the form are integers; the run bounds
    are taken to be safe integers (below 2^53 in absolute value), for which
    clamping the exact value [parseInt] reads is clamping the double.  The
    seed is kept as the integer that was read, which is the number the
    page holds as long as it is a safe integer. *)

(** [String(n)] for an integer: its decimal digits, with [-] in front of a
    negative one. *)
Fixpoint uintDigits (u : Decimal.uint) : jsstring :=
  match u with
  | Decimal.Nil => []
  | Decimal.D0 v => 48%N :: uintDigits v
  | Decimal.D1 v => 49%N :: uintDigits v
  | Decimal.D2 v => 50%N :: uintDigits v
  | Decimal.D3 v => 51%N :: uintDigits v
  | Decimal.D4 v => 52%N :: uintDigits v
  | Decimal.D5 v => 53%N :: uintDigits v
  | Decimal.D6 v => 54%N :: uintDigits v
  | Decimal.D7 v => 55%N :: uintDigits v
  | Decimal.D8 v => 56%N :: uintDigits v
  | Decimal.D9 v => 57%N :: uintDigits v
  end.


Definition String_ofZ (z : Z) : jsstring :=
  match z with
  | Z0 => [48%N]
  | Zpos p => uintDigits (Pos.to_uint p)
  | Zneg p => 45%N :: uintDigits (Pos.to_uint p)
  end.

(** The body [handleSubmit] sends: [JSON.stringify({ prompt, runs,
    eigenSeed })], as the handler reads it. *)
Definition requestOf (p : jsstring) (r sd : Z) : CompareRequest :=
  {| prompt := Some (JString p); runs := Some (JNumber (JFin (inject_Z r)));
     eigenSeed := Some (JNumber (JFin (inject_Z sd)));
     openaiMaxTokens := None; eigenMaxTokens := None |}.

Module Page.

Definition defaultPrompt : jsstring :=
  lit "What are the top 5 restaurants in Tokyo? Names only in a comma separated list.".

(** Lines 64-68; [v] is [process.env.NEXT_PUBLIC_EIGENAI_DEFAULT_SEED]. *)
Definition defaultSeed (v : option jsstring) : Z :=
  match parseInt (default [] v) 10 with
  | None => 42
  | Some envSeed => envSeed
  end.

(** Line 73. *)
Definition defaultRuns (K : Constants) : Z := Z.min 4 (MAX_RUNS K).

Record State : Type := {
  prompt : jsstring;
  runs : Z;
  runsInput : jsstring;
  eigenSeed : Z;
  isLoading : bool;
  error : option jsstring;
  result : option Body
}.

Definition initial (K : Constants) (v : option jsstring) : State :=
  {| prompt := defaultPrompt; runs := defaultRuns K;
     runsInput := String_ofZ (defaultRuns K); eigenSeed := defaultSeed v;
     isLoading := false; error := None; result := None |}.

(** [Math.min(Math.max(parsed, MIN_RUNS), MAX_RUNS)] *)
Definition clamped (K : Constants) (parsed : Z) : Z :=
  Z.min (Z.max parsed (MIN_RUNS K)) (MAX_RUNS K).

Definition setRuns (r : Z) (text : jsstring) (s : State) : State :=
  {| prompt := prompt s; runs := r; runsInput := text;
     eigenSeed := eigenSeed s; isLoading := isLoading s; error := error s;
     result := result s |}.

(** [onChange] of the run count: lines 198-213. *)
Definition runsOnChange (K : Constants) (value : jsstring) (s : State)
    : State :=
  if isEmpty value then setRuns (runs s) [] s
  else
    match parseInt value 10 with
    | None => s
    | Some parsed =>
        setRuns (clamped K parsed) (String_ofZ (clamped K parsed)) s
    end.

(** [onBlur] of the run count: lines 214-231. *)
Definition runsOnBlur (K : Constants) (s : State) : State :=
  if isEmpty (runsInput s)
  then setRuns (MIN_RUNS K) (String_ofZ (MIN_RUNS K)) s
  else
    match parseInt (runsInput s) 10 with
    | None => setRuns (MIN_RUNS K) (String_ofZ (MIN_RUNS K)) s
    | Some parsed =>
        setRuns (clamped K parsed) (String_ofZ (clamped K parsed)) s
    end.

(** [onChange] of the seed: [Number.parseInt(value, 10) || 0]. *)
Definition seedOnChange (value : jsstring) (s : State) : State :=
  {| prompt := prompt s; runs := runs s; runsInput := runsInput s;
     eigenSeed := match parseInt value 10 with
                  | Some sd => sd
                  | None => 0
                  end;
     isLoading := isLoading s; error := error s; result := result s |}.

(** [onChange] of the prompt. *)
Definition promptOnChange (value : jsstring) (s : State) : State :=
  {| prompt := value; runs := runs s; runsInput := runsInput s;
     eigenSeed := eigenSeed s; isLoading := isLoading s; error := error s;
     result := result s |}.

(** Lines 81-88. *)
Definition handleReset (K : Constants) (v : option jsstring) (s : State)
    : State :=
  {| prompt := defaultPrompt; runs := defaultRuns K;
     runsInput := String_ofZ (defaultRuns K); eigenSeed := defaultSeed v;
     isLoading := isLoading s; error := None; result := None |}.

(** [handleSubmit] up to the [fetch]: the state while the request is out,
    and the body that is sent. *)
Definition submitting (s : State) : State :=
  {| prompt := prompt s; runs := runs s; runsInput := runsInput s;
     eigenSeed := eigenSeed s; isLoading := true; error := None;
     result := result s |}.

Definition submitted (s : State) : CompareRequest :=
  requestOf (prompt s) (runs s) (eigenSeed s).

(** [handleSubmit] from the response on: a response that is not ok shows
    [payload?.error || "Request failed."] and clears the result, an ok one
    becomes the result. *)
Definition received (resp : Response) (s : State) : State :=
  if negb (ok (status resp)) then
    {| prompt := prompt s; runs := runs s; runsInput := runsInput s;
       eigenSeed := eigenSeed s; isLoading := false;
       error := Some match body resp with
                     | ErrorBody m =>
                         if isEmpty m then lit "Request failed." else m
                     | Comparison _ _ _ _ => lit "Request failed."
                     end;
       result := None |}
  else
    {| prompt := prompt s; runs := runs s; runsInput := runsInput s;
       eigenSeed := eigenSeed s; isLoading := false; error := error s;
       result := Some (body resp) |}.

(** The events of the form. *)
Inductive Event : Type :=
| PromptChange (value : jsstring)
| RunsChange (value : jsstring)
| RunsBlur
| SeedChange (value : jsstring)
| Reset.

Definition handle (K : Constants) (v : option jsstring) (s : State)
    (ev : Event) : State :=
  match ev with
  | PromptChange value => promptOnChange value s
  | RunsChange value => runsOnChange K value s
  | RunsBlur => runsOnBlur K s
  | SeedChange value => seedOnChange value s
  | Reset => handleReset K v s
  end.

(** The state after a sequence of events on the freshly loaded page. *)
Definition after (K : Constants) (v : option jsstring) (evs : list Event)
    : State :=
  fold_left (handle K v) evs (initial K v).

End Page.

(** * Properties *)

(** ** Properties of the string primitives *)

Section StringFacts.

Lemma trimStart_idem s : trimStart (trimStart s) = trimStart s.
Proof.
  induction s as [|c s IH]; simpl; [reflexivity|].
  destruct (isWhiteSpace c) eqn:E; [exact IH|].
  simpl. rewrite E. reflexivity.
Qed.

Lemma trimStart_app_keep s c :
  isWhiteSpace c = false ->
  exists u, trimStart (s ++ [c]) = u ++ [c].
Proof.
  intros Hc. induction s as [|d s [u IH]]; simpl.
  - rewrite Hc. exists []. reflexivity.
  - destruct (isWhiteSpace d).
    + exists u. exact IH.
    + exists (d :: s). reflexivity.
Qed.

Lemma trimEnd_idem s : trimEnd (trimEnd s) = trimEnd s.
Proof.
  unfold trimEnd. rewrite rev_involutive, trimStart_idem. reflexivity.
Qed.

(** What [trimStart] returns is empty or begins with a code unit that is
    not white space, and [trimEnd] keeps that code unit. *)
Lemma trimStart_head s :
  trimStart s = [] \/
  exists c r, trimStart s = c :: r /\ isWhiteSpace c = false.
Proof.
  induction s as [|c s IH]; simpl; [left; reflexivity|].
  destruct (isWhiteSpace c) eqn:E; [exact IH|].
  right. exists c, s. split; [reflexivity | exact E].
Qed.

Lemma trimStart_trimEnd_trimStart s :
  trimStart (trimEnd (trimStart s)) = trimEnd (trimStart s).
Proof.
  destruct (trimStart_head s) as [-> | (c & r & -> & Hc)].
  - reflexivity.
  - unfold trimEnd. simpl rev.
    destruct (trimStart_app_keep (rev r) c Hc) as [u ->].
    rewrite rev_app_distr. simpl. rewrite Hc. reflexivity.
Qed.

Lemma trim_idem s : trim (trim s) = trim s.
Proof.
  unfold trim. rewrite trimStart_trimEnd_trimStart. apply trimEnd_idem.
Qed.

Lemma split_nonempty sep s : split sep s <> [].
Proof.
  destruct s as [|c r]; simpl; [discriminate|].
  destruct (c =? sep)%N; [discriminate|].
  destruct (split sep r); discriminate.
Qed.

Lemma join_split sep s : join [sep] (split sep s) = s.
Proof.
  induction s as [|c r IH]; simpl; [reflexivity|].
  destruct (c =? sep)%N eqn:E.
  - apply N.eqb_eq in E. subst c.
    destruct (split sep r) as [|l ls] eqn:S; [now apply split_nonempty in S|].
    simpl in *. rewrite IH. reflexivity.
  - destruct (split sep r) as [|l ls] eqn:S; [now apply split_nonempty in S|].
    rewrite <- IH. destruct ls; reflexivity.
Qed.

Lemma startsWith_tag_open p s :
  hasTagOpen s = false ->
  startsWith (LT :: PIPE :: p) s = false.
Proof.
  destruct s as [|c [|d s]]; cbn [startsWith hasTagOpen]; try reflexivity.
  - intros _. apply andb_false_r.
  - intros H. apply orb_false_iff in H. destruct H as [H _].
    rewrite (N.eqb_sym LT c), (N.eqb_sym PIPE d).
    destruct (c =? LT)%N; [|reflexivity].
    destruct (d =? PIPE)%N; [discriminate|reflexivity].
Qed.

Lemma hasTagOpen_tail c s : hasTagOpen (c :: s) = false -> hasTagOpen s = false.
Proof.
  cbn [hasTagOpen]. destruct s as [|d s]; [reflexivity|].
  intros H. apply orb_false_iff in H. apply H.
Qed.

Lemma lastIndexOf_from_absent p s i found :
  hasTagOpen s = false ->
  lastIndexOf_from (LT :: PIPE :: p) s i found = found.
Proof.
  revert i. induction s as [|c s IH]; intros i H.
  - reflexivity.
  - cbn [lastIndexOf_from]. rewrite (startsWith_tag_open p _ H).
    apply IH. exact (hasTagOpen_tail _ _ H).
Qed.

Lemma lastIndexOf_from_no_occurrence needle s i found :
  occurs needle s = false ->
  lastIndexOf_from needle s i found = found.
Proof.
  revert i. induction s as [|c s IH]; intros i H; cbn [occurs] in H;
    apply orb_false_iff in H; destruct H as [Hhead Htail];
    cbn [lastIndexOf_from]; rewrite Hhead; [reflexivity|].
  apply IH. exact Htail.
Qed.

Lemma startsWith_app p s : startsWith p (p ++ s) = true.
Proof.
  induction p as [|a p IH]; [reflexivity|].
  cbn [startsWith app]. rewrite N.eqb_refl. exact IH.
Qed.

(** When the occurrence of [needle] after [pre] is the last one,
    [lastIndexOf] is the length of [pre]. *)
Lemma lastIndexOf_from_last needle pre post i found :
  needle <> [] ->
  occurs needle (tl (needle ++ post)) = false ->
  lastIndexOf_from needle (pre ++ needle ++ post) i found
  = i + Z.of_nat (List.length pre).
Proof.
  intros Hne Hlast. revert i found.
  induction pre as [|c pre IH]; intros i found.
  - cbn [app List.length]. destruct needle as [|a needle]; [congruence|].
    cbn [app tl] in Hlast.
    change ((a :: needle) ++ post) with (a :: needle ++ post).
    cbn [lastIndexOf_from].
    change (a :: needle ++ post) with ((a :: needle) ++ post).
    rewrite startsWith_app.
    rewrite (lastIndexOf_from_no_occurrence _ _ _ _ Hlast). lia.
  - change ((c :: pre) ++ needle ++ post) with (c :: pre ++ needle ++ post).
    cbn [lastIndexOf_from]. rewrite IH. cbn [List.length]. lia.
Qed.

Lemma matchTag_absent s : hasTagOpen s = false -> matchTag s = None.
Proof.
  destruct s as [|a [|b [|c s]]]; cbn [matchTag hasTagOpen]; try reflexivity.
  intros H. apply orb_false_iff in H. destruct H as [H _].
  rewrite H. reflexivity.
Qed.

Lemma removeTags_absent s : hasTagOpen s = false -> removeTags s = s.
Proof.
  funelim (removeTags s); intros Hs.
  - reflexivity.
  - pose proof (matchTag_absent _ Hs) as Hnone. congruence.
  - f_equal.
    match goal with
    | IH : _ -> removeTags _ = _ |- _ => apply IH
    end.
    exact (hasTagOpen_tail _ _ Hs).
Qed.

Lemma stripBlockquote_unquoted line :
  isQuoted line = false -> stripBlockquote line = line.
Proof.
  unfold isQuoted, stripBlockquote.
  destruct (trimStart line) as [|c r]; [reflexivity|].
  intros ->. reflexivity.
Qed.

Lemma map_stripBlockquote_unquoted ls :
  forallb (fun l => negb (isQuoted l)) ls = true ->
  map stripBlockquote ls = ls.
Proof.
  induction ls as [|l ls IH]; simpl; [reflexivity|].
  intros H. apply andb_true_iff in H. destruct H as [Hl Hls].
  apply negb_true_iff in Hl.
  rewrite (stripBlockquote_unquoted _ Hl), (IH Hls). reflexivity.
Qed.

End StringFacts.

(** ** Properties of [parseEigenMessage] *)

Lemma withoutPreceding_absent t :
  hasTagOpen t = false -> withoutPreceding t = t.
Proof.
  intros H. unfold withoutPreceding, lastIndexOf, END_TAG.
  change (lit "<|end|>") with (LT :: PIPE :: lit "end|>").
  rewrite (lastIndexOf_from_absent _ _ _ _ H). reflexivity.
Qed.

Lemma parseEigenMessage_trimmed raw :
  trim (parseEigenMessage raw) = parseEigenMessage raw.
Proof.
  unfold parseEigenMessage.
  destruct (isEmpty (trim raw)); apply trim_idem.
Qed.

(** On a trimmed clean text the cleanup changes nothing. *)
Lemma parseEigenMessage_clean t :
  trim t = t -> isClean t = true -> parseEigenMessage t = t.
Proof.
  intros Ht Hc. unfold isClean in Hc.
  apply andb_true_iff in Hc. destruct Hc as [Hopen Hlines].
  apply negb_true_iff in Hopen.
  unfold parseEigenMessage. rewrite Ht.
  destruct (isEmpty t); [reflexivity|].
  rewrite (withoutPreceding_absent _ Hopen), (removeTags_absent _ Hopen).
  rewrite (map_stripBlockquote_unquoted _ Hlines), join_split. exact Ht.
Qed.

(** C1 (as stated): a second application of the cleanup can change the text:
    it strips one more blockquote marker from ["> > a"]. *)
Lemma parseEigenMessage_not_idempotent :
  ~ (forall raw, parseEigenMessage (parseEigenMessage raw) = parseEigenMessage raw).
Proof.
  intros H. specialize (H (lit "> > a")). vm_compute in H. discriminate.
Qed.

(** C1 (amended): whenever the cleaned text is already clean, with no [<|]
    left in it and no line that begins with a blockquote marker, applying
    the cleanup again returns it unchanged. *)
Theorem parseEigenMessage_idempotent_on_clean raw :
  isClean (parseEigenMessage raw) = true ->
  parseEigenMessage (parseEigenMessage raw) = parseEigenMessage raw.
Proof.
  intros Hc. apply parseEigenMessage_clean; [|exact Hc].
  apply parseEigenMessage_trimmed.
Qed.

Lemma parseEigenMessage_idempotent_on_clean_witness :
  isClean (parseEigenMessage (lit "  <|start|>Hello<|end|> World  ")) = true /\
  parseEigenMessage (parseEigenMessage (lit "  <|start|>Hello<|end|> World  "))
  = parseEigenMessage (lit "  <|start|>Hello<|end|> World  ").
Proof.
  split.
  - vm_compute. reflexivity.
  - apply (parseEigenMessage_idempotent_on_clean
             (lit "  <|start|>Hello<|end|> World  ")).
    vm_compute. reflexivity.
Defined.

(** Where the end marker does not occur, the whole trimmed text is kept. *)
Lemma withoutPreceding_no_marker t :
  occurs END_TAG t = false -> withoutPreceding t = t.
Proof.
  intros H. unfold withoutPreceding, lastIndexOf.
  rewrite (lastIndexOf_from_no_occurrence _ _ _ _ H). reflexivity.
Qed.

(** Where it occurs, [slice(lastEndTag + 6)] starts at the seventh code
    unit of the marker: the [>] that closes the marker is kept in front of
    the text that follows it. *)
Lemma withoutPreceding_last_marker pre post :
  occurs END_TAG (tl (END_TAG ++ post)) = false ->
  withoutPreceding (pre ++ END_TAG ++ post) = GT :: post.
Proof.
  intros Hlast. unfold withoutPreceding, lastIndexOf.
  rewrite (lastIndexOf_from_last END_TAG pre post 0 (-1)); [|discriminate|exact Hlast].
  replace (negb (0 + Z.of_nat (List.length pre) =? -1)) with true
    by (symmetry; apply negb_true_iff, Z.eqb_neq; lia).
  unfold sliceFrom, slicePos.
  replace (0 + Z.of_nat (List.length pre) + 6 <? 0) with false
    by (symmetry; apply Z.ltb_ge; lia).
  rewrite Z.min_l.
  2:{ rewrite !length_app. change (List.length END_TAG) with 7%nat. lia. }
  replace (Z.to_nat (0 + Z.of_nat (List.length pre) + 6))
    with (List.length pre + 6)%nat by lia.
  rewrite skipn_app, skipn_all2 by lia.
  replace (List.length pre + 6 - List.length pre)%nat with 6%nat by lia.
  reflexivity.
Qed.


(** C2: on ["Hello<|end|>> quoted"] the text kept after the last end
    marker still begins with the [>] of the marker, where the text after the
    marker is ["> quoted"]; the cleanup then returns ["> quoted"] where
    cleaning the text after the marker gives ["quoted"]. *)
Theorem withoutPreceding_keeps_marker_end :
  withoutPreceding (lit "Hello<|end|>> quoted") = lit ">> quoted" /\
  textAfterLastMarker (lit "Hello<|end|>> quoted") = lit "> quoted" /\
  parseEigenMessage (lit "Hello<|end|>> quoted") = lit "> quoted" /\
  parseEigenMessage (lit "> quoted") = lit "quoted".
Proof. repeat split; vm_compute; reflexivity. Qed.

(** C3: the four literal expectations of the cleanup. *)
Theorem parseEigenMessage_expectations :
  parseEigenMessage (lit "  <|start|>Hello<|end|> World  ") = lit "World" /\
  parseEigenMessage (lit ("> quoted line" ++ nl ++ "plain line")%string)
  = lit ("quoted line" ++ nl ++ "plain line")%string /\
  (forall raw, trim raw = [] -> parseEigenMessage raw = []) /\
  parseEigenMessage (lit "<|end|>") = lit "".
Proof.
  split; [vm_compute; reflexivity|].
  split; [vm_compute; reflexivity|].
  split; [|vm_compute; reflexivity].
  intros raw H. unfold parseEigenMessage. rewrite H. reflexivity.
Qed.

Lemma parseEigenMessage_expectations_witness :
  trim (lit "   ") = [] /\ parseEigenMessage (lit "   ") = [].
Proof.
  split.
  - vm_compute. reflexivity.
  - apply (proj1 (proj2 (proj2 parseEigenMessage_expectations)) (lit "   ")).
    vm_compute. reflexivity.
Defined.

(** ** Properties of [uuidToSeed] *)

Section SeedFacts.

Lemma isHexDigit_cases c :
  isHexDigit c = true -> In c (lit "0123456789abcdefABCDEF").
Proof.
  unfold isHexDigit. rewrite !orb_true_iff, !andb_true_iff, !N.leb_le.
  intros H.
  assert (Hc : (c = 48 \/ c = 49 \/ c = 50 \/ c = 51 \/ c = 52 \/ c = 53 \/
                c = 54 \/ c = 55 \/ c = 56 \/ c = 57 \/
                c = 97 \/ c = 98 \/ c = 99 \/ c = 100 \/ c = 101 \/ c = 102 \/
                c = 65 \/ c = 66 \/ c = 67 \/ c = 68 \/ c = 69 \/ c = 70)%N)
    by lia.
  cbv [lit list_ascii_of_string map N_of_ascii N_of_digits].
  repeat (destruct Hc as [-> | Hc]; [simpl; tauto|]).
  subst c. simpl. tauto.
Qed.

(** What [parseInt] sees in a hexadecimal digit: neither white space, nor a
    sign, nor the [x] of a prefix, and a digit of radix 16. *)
Definition plainHexDigit (c : code_unit) : bool :=
  negb (isWhiteSpace c) && negb (c =? 45)%N && negb (c =? 43)%N &&
  negb (c =? 120)%N && negb (c =? 88)%N &&
  match digitValue c with
  | Some d => (0 <=? d) && (d <? 16)
  | None => false
  end.

Lemma isHexDigit_plain c : isHexDigit c = true -> plainHexDigit c = true.
Proof.
  intros H. apply isHexDigit_cases in H.
  assert (Hall : forallb plainHexDigit (lit "0123456789abcdefABCDEF") = true)
    by (vm_compute; reflexivity).
  rewrite forallb_forall in Hall. apply Hall, H.
Qed.

Lemma plainHexDigit_value c :
  plainHexDigit c = true ->
  digitValue c = Some (hexDigitValue c) /\ 0 <= hexDigitValue c < 16.
Proof.
  unfold plainHexDigit, hexDigitValue. rewrite !andb_true_iff.
  intros (_ & Hd). destruct (digitValue c) as [d|]; [|discriminate].
  apply andb_true_iff in Hd. destruct Hd as [H0 H1].
  apply Z.leb_le in H0. apply Z.ltb_lt in H1. split; [reflexivity | lia].
Qed.

Lemma removeAll_hex h rest :
  forallb isHexDigit h = true ->
  removeAll MINUS (h ++ rest) = h ++ removeAll MINUS rest.
Proof.
  induction h as [|c h IH]; cbn [forallb app]; [reflexivity|].
  intros H. apply andb_true_iff in H. destruct H as [Hc Hh].
  unfold removeAll in *. cbn [List.filter].
  apply isHexDigit_plain in Hc. unfold plainHexDigit in Hc.
  rewrite !andb_true_iff in Hc.
  destruct Hc as (((((_ & Hm) & _) & _) & _) & _).
  change 45%N with MINUS in Hm. rewrite Hm, (IH Hh). reflexivity.
Qed.

Lemma slice_prefix h rest :
  List.length h = 8%nat -> slice (h ++ rest) 0 8 = h.
Proof.
  intros Hlen. unfold slice, slicePos. rewrite length_app, Hlen.
  change (0 <? 0) with false. change (8 <? 0) with false. cbv beta iota.
  rewrite Z.min_l by lia. rewrite Z.min_l by lia.
  change (Z.to_nat (Z.max (8 - 0) 0)) with 8%nat.
  change (Z.to_nat 0) with 0%nat. rewrite skipn_0.
  rewrite <- Hlen. rewrite firstn_app, firstn_all, Nat.sub_diag, firstn_0.
  apply app_nil_r.
Qed.

Lemma radixDigits_hex h :
  forallb isHexDigit h = true ->
  radixDigits 16 h = map hexDigitValue h.
Proof.
  induction h as [|c h IH]; cbn [forallb radixDigits map]; [reflexivity|].
  intros H. apply andb_true_iff in H. destruct H as [Hc Hh].
  destruct (plainHexDigit_value c (isHexDigit_plain c Hc)) as [-> Hr].
  replace (hexDigitValue c <? 16) with true by (symmetry; apply Z.ltb_lt; lia).
  rewrite (IH Hh). reflexivity.
Qed.

(** The left-to-right accumulation of [parseInt] is the positional value. *)
Lemma horner_hexNumber h acc :
  fold_left (fun a d => a * 16 + d) (map hexDigitValue h) acc
  = acc * 16 ^ Z.of_nat (List.length h) + hexNumber h.
Proof.
  revert acc. induction h as [|c h IH]; intros acc.
  - cbn. lia.
  - cbn [map fold_left hexNumber List.length]. rewrite IH.
    rewrite Nat2Z.inj_succ, Z.pow_succ_r by lia. ring.
Qed.

Lemma hexNumber_bounds h :
  forallb isHexDigit h = true ->
  0 <= hexNumber h < 16 ^ Z.of_nat (List.length h).
Proof.
  induction h as [|c h IH]; cbn [forallb hexNumber List.length].
  - intros _. cbn. lia.
  - intros H. apply andb_true_iff in H. destruct H as [Hc Hh].
    destruct (plainHexDigit_value c (isHexDigit_plain c Hc)) as [_ Hr].
    specialize (IH Hh). rewrite Nat2Z.inj_succ, Z.pow_succ_r by lia.
    set (p := 16 ^ Z.of_nat (List.length h)) in *. nia.
Qed.

Lemma parseInt_hex h :
  (2 <= List.length h)%nat ->
  forallb isHexDigit h = true ->
  parseInt h 16 = Some (hexNumber h).
Proof.
  intros Hlen Hh.
  destruct h as [|a [|b h]]; cbn [List.length] in Hlen; try lia.
  pose proof Hh as Hall.
  cbn [forallb] in Hh. rewrite !andb_true_iff in Hh.
  destruct Hh as (Ha & Hb & _).
  apply isHexDigit_plain in Ha, Hb. unfold plainHexDigit in Ha, Hb.
  rewrite !andb_true_iff, !negb_true_iff in Ha, Hb.
  destruct Ha as (((((Hws & Hminus) & Hplus) & _) & _) & _).
  destruct Hb as (((((_ & _) & _) & Hx) & HX) & _).
  unfold parseInt. cbn [trimStart]. rewrite Hws.
  unfold stripSign. rewrite Hminus, Hplus.
  change (negb (16 =? 0) && ((16 <? 2) || (36 <? 16))) with false.
  change ((16 =? 0) || (16 =? 16)) with true. cbv beta iota.
  unfold stripHexPrefix. rewrite Hx, HX, andb_false_r.
  change (16 =? 0) with false. cbv beta iota.
  rewrite (radixDigits_hex _ Hall).
  cbn [map]. change (hexDigitValue a :: hexDigitValue b :: map hexDigitValue h)
    with (map hexDigitValue (a :: b :: h)).
  rewrite horner_hexNumber. f_equal. lia.
Qed.

Lemma toInt32_small v : 0 <= v < 2 ^ 31 -> toInt32 v = v.
Proof.
  intros H. unfold toInt32. rewrite Z.mod_small by lia.
  destruct (Z.leb_spec (2 ^ 31) v); lia.
Qed.

Lemma toInt32_mod31 v : toInt32 v mod 2 ^ 31 = v mod 2 ^ 31.
Proof.
  unfold toInt32.
  assert (Hm : (v mod 2 ^ 32) mod 2 ^ 31 = v mod 2 ^ 31).
  { rewrite (Z.mod_eq v (2 ^ 32)) by lia.
    replace (v - 2 ^ 32 * (v / 2 ^ 32))
      with (v + (- (2 * (v / 2 ^ 32))) * 2 ^ 31) by ring.
    apply Z.mod_add. lia. }
  destruct (2 ^ 31 <=? v mod 2 ^ 32); [|exact Hm].
  rewrite <- Hm.
  replace (v mod 2 ^ 32 - 2 ^ 32)
    with (v mod 2 ^ 32 + (-2) * 2 ^ 31) by ring.
  apply Z.mod_add. lia.
Qed.

(** [v & 0x7fffffff] is [v] reduced modulo 2^31. *)
Lemma bitAnd_mask31 v : bitAnd v 0x7fffffff = v mod 2 ^ 31.
Proof.
  unfold bitAnd. rewrite (toInt32_small 0x7fffffff) by lia.
  change 0x7fffffff with (Z.ones 31).
  rewrite Z.land_ones by lia. rewrite toInt32_mod31.
  apply toInt32_small. apply Z.mod_pos_bound. lia.
Qed.

End SeedFacts.

Lemma matchGroups_first n g gs u :
  matchGroups (n :: g :: gs) u = true ->
  List.length (firstn n u) = n /\ forallb isHexDigit (firstn n u) = true.
Proof.
  cbn [matchGroups]. rewrite !andb_true_iff.
  intros [[Hlen Hhex] _]. apply Nat.eqb_eq in Hlen. split; assumption.
Qed.

Lemma uuidToSeed_range u : 0 <= uuidToSeed u <= 2 ^ 31 - 1.
Proof.
  unfold uuidToSeed. rewrite bitAnd_mask31.
  match goal with |- 0 <= ?v mod _ <= _ =>
    pose proof (Z.mod_pos_bound v (2 ^ 31)) end.
  lia.
Qed.

(** C4: for a version-4 UUID the seed is read from the first eight
    hexadecimal digits: they are what is parsed, the parse gives the
    unsigned integer they denote, and the seed is that integer with only
    its low 31 bits kept, so it lies between 0 and 2^31 - 1.  For any
    string, a parse that fails gives the seed 0. *)
Theorem uuidToSeed_spec (u : jsstring) :
  isUuidV4 u = true ->
  uuidHex u = firstn 8 u /\
  parseInt (uuidHex u) 16 = Some (hexNumber (firstn 8 u)) /\
  uuidToSeed u = Z.land (hexNumber (firstn 8 u)) (2 ^ 31 - 1) /\
  0 <= uuidToSeed u <= 2 ^ 31 - 1 /\
  (forall s, parseInt (uuidHex s) 16 = None -> uuidToSeed s = 0).
Proof.
  intros Hu. unfold isUuidV4 in Hu. rewrite !andb_true_iff in Hu.
  destruct Hu as [[Hshape _] _].
  apply matchGroups_first in Hshape. destruct Hshape as [Hlen Hhex].
  assert (Hhexu : uuidHex u = firstn 8 u).
  { unfold uuidHex. rewrite <- (firstn_skipn 8 u) at 1.
    rewrite removeAll_hex by exact Hhex. apply slice_prefix, Hlen. }
  assert (Hparse : parseInt (uuidHex u) 16 = Some (hexNumber (firstn 8 u))).
  { rewrite Hhexu. apply parseInt_hex; [lia | exact Hhex]. }
  split; [exact Hhexu|]. split; [exact Hparse|].
  split; [|split; [apply uuidToSeed_range|]].
  - unfold uuidToSeed. rewrite Hparse, bitAnd_mask31.
    change (2 ^ 31 - 1) with (Z.ones 31). rewrite Z.land_ones by lia.
    destruct (hexNumber (firstn 8 u) =? 0) eqn:E; [|reflexivity].
    apply Z.eqb_eq in E. rewrite E. reflexivity.
  - intros s Hs. unfold uuidToSeed. rewrite Hs. reflexivity.
Qed.

Lemma uuidToSeed_spec_witness :
  isUuidV4 (lit "9b1deb4d-3b7d-4bad-9bdd-2b0d7b3dcb6d") = true /\
  uuidToSeed (lit "9b1deb4d-3b7d-4bad-9bdd-2b0d7b3dcb6d")
  = Z.land (hexNumber (lit "9b1deb4d")) (2 ^ 31 - 1).
Proof.
  split.
  - vm_compute. reflexivity.
  - apply (uuidToSeed_spec (lit "9b1deb4d-3b7d-4bad-9bdd-2b0d7b3dcb6d")).
    vm_compute. reflexivity.
Defined.

(** ** Properties of the request *)

(** Every request is what the handler reads of some body: the properties
    range over all JSON values, independently of each other. *)
Lemma propertiesOf_bodyOf b : propertiesOf (bodyOf b) = b.
Proof.
  destruct b as [[p|] [r|] [s|] [o|] [e|]]; vm_compute; reflexivity.
Qed.

(** ** Properties of the run count *)

Section RunCount.

Lemma Qle_bool_inject_Z a b : Qle_bool (inject_Z a) (inject_Z b) = (a <=? b).
Proof.
  unfold Qle_bool, inject_Z. cbn [Qnum Qden]. rewrite !Z.mul_1_r. reflexivity.
Qed.

Lemma Math_max_ofZ a b : Math_max (ofZ a) (ofZ b) = ofZ (Z.max a b).
Proof.
  unfold Math_max, ofZ. rewrite Qle_bool_inject_Z.
  destruct (Z.leb_spec a b); [rewrite Z.max_r | rewrite Z.max_l];
    (reflexivity || lia).
Qed.

Lemma Math_min_ofZ a b : Math_min (ofZ a) (ofZ b) = ofZ (Z.min a b).
Proof.
  unfold Math_min, ofZ. rewrite Qle_bool_inject_Z.
  destruct (Z.leb_spec a b); [rewrite Z.min_l | rewrite Z.min_r];
    (reflexivity || lia).
Qed.

Lemma clamp_ofZ v lo hi :
  clamp (ofZ v) (ofZ lo) (ofZ hi) = ofZ (Z.min (Z.max v lo) hi).
Proof. unfold clamp. rewrite Math_max_ofZ, Math_min_ofZ. reflexivity. Qed.

Lemma clamp_nearest v lo hi :
  lo <= hi -> Z.min (Z.max v lo) hi = nearestInRange lo hi v.
Proof.
  intros H. unfold nearestInRange.
  destruct (Z.ltb_spec v lo); [lia|].
  destruct (Z.ltb_spec hi v); lia.
Qed.

Lemma nearestInRange_bounds v lo hi :
  lo <= hi -> lo <= nearestInRange lo hi v <= hi.
Proof.
  intros H. unfold nearestInRange.
  destruct (Z.ltb_spec v lo); [lia|].
  destruct (Z.ltb_spec hi v); lia.
Qed.

Lemma clamp_floor_cases x lo hi :
  clamp (Math_floor x) (ofZ lo) (ofZ hi) = NaN /\ x = NaN \/
  exists n, clamp (Math_floor x) (ofZ lo) (ofZ hi) = ofZ n /\
            Z.min lo hi <= n <= hi.
Proof.
  destruct x as [| | q |]; cbn [Math_floor].
  - left. split; reflexivity.
  - right. exists (Z.min lo hi). split; [|lia].
    unfold clamp. cbn [Math_max ofZ]. apply Math_min_ofZ.
  - right. rewrite clamp_ofZ. eexists. split; [reflexivity | lia].
  - right. exists hi. split; [reflexivity | lia].
Qed.

(** Whatever the request says, the run count, when there is one, is [NaN]
    or an integer. *)
Lemma effectiveRuns_cases K r x :
  effectiveRuns K r = inr x ->
  x = NaN \/
  exists n, x = ofZ n /\ Z.min (MIN_RUNS K) (MAX_RUNS K) <= n <= MAX_RUNS K.
Proof.
  unfold effectiveRuns.
  destruct (match r with
            | None | Some JNull => inr (ofZ 4)
            | Some v => ToNumber v
            end) as [e|y]; [discriminate|].
  intros [= <-].
  destruct (clamp_floor_cases y (MIN_RUNS K) (MAX_RUNS K))
    as [[-> _] | (n & -> & Hn)]; [left; reflexivity | right; eauto].
Qed.

Lemma ToNumber_converts v :
  noPrimitive v = false -> exists x, ToNumber v = inr x.
Proof.
  destruct v; cbn [ToNumber]; intros H; try rewrite H; eauto.
Qed.

Lemma effectiveRuns_converts K r :
  match r with Some v => noPrimitive v = false | None => True end ->
  exists x, effectiveRuns K r = inr x.
Proof.
  unfold effectiveRuns. destruct r as [v|]; [|eauto].
  intros H. destruct (ToNumber_converts v H) as [x Hx].
  destruct v; try (rewrite Hx; eauto); eauto.
Qed.

(** The run count of a request whose [runs] is a number. *)
Lemma effectiveRuns_number K n :
  effectiveRuns K (Some (JNumber n))
  = inr (clamp (Math_floor (toNumber n)) (ofZ (MIN_RUNS K)) (ofZ (MAX_RUNS K))).
Proof. reflexivity. Qed.

(** A run count that is [NaN] comes from a value that converts to [NaN]:
    no number of the body does. *)
Lemma effectiveRuns_NaN K r :
  effectiveRuns K r = inr NaN ->
  match r with
  | None | Some JNull | Some (JNumber _) => False
  | Some v => ToNumber v = inr NaN
  end.
Proof.
  unfold effectiveRuns.
  assert (H4 : clamp (Math_floor (ofZ 4)) (ofZ (MIN_RUNS K)) (ofZ (MAX_RUNS K))
               <> NaN).
  { unfold ofZ at 1. cbn [Math_floor]. rewrite clamp_ofZ. unfold ofZ.
    discriminate. }
  assert (Hc : forall x, inr (clamp (Math_floor x) (ofZ (MIN_RUNS K))
                                (ofZ (MAX_RUNS K))) = @inr Uncaught _ NaN ->
                         x = NaN).
  { intros x [= Hx].
    destruct (clamp_floor_cases x (MIN_RUNS K) (MAX_RUNS K))
      as [[_ ->] | (n & Hn & _)]; [reflexivity|].
    rewrite Hn in Hx. discriminate Hx. }
  destruct r as [[| b | [| q |] | t | items | members]|];
    try (intros [= H]; exact (H4 H)); cbn [ToNumber toNumber].
  - intros H. apply Hc in H. discriminate H.
  - intros H. apply Hc in H. discriminate H.
  - intros H. apply Hc in H. discriminate H.
  - intros H. apply Hc in H. now rewrite H.
  - destruct (noPrimitive (JArray items)); [discriminate|].
    intros H. apply Hc in H. now rewrite H.
  - destruct (noPrimitive (JObject members)); [discriminate|].
    intros H. apply Hc in H. now rewrite H.
Qed.

End RunCount.

(** C5 (as the code has it): line 72 has no test of [body.runs].  A run
    count that is not a number, here the string ["abc"], gives [NaN]
    whatever the bounds, neither the default nor a value of the range; an
    infinite one, which [JSON.parse] reads from [1e999], gives the upper
    bound, 8 for the bounds 1 and 8, not the default 4.  The test is there
    for the seed: lines 73-75 fall back to the default seed, 42, for both
    values. *)
Theorem effectiveRuns_not_guarded (K : Constants) :
  effectiveRuns K (runs textRunsRequest) = inr NaN /\
  effectiveRuns exampleConstants (runs hugeRunsRequest) = inr (ofZ 8) /\
  eigenSeedOf (Some (JString (lit "abc"))) None = ofZ 42 /\
  eigenSeedOf (Some (JNumber JPosInf)) None = ofZ 42.
Proof.
  split; [reflexivity|]. split; [vm_compute; reflexivity|].
  split; vm_compute; reflexivity.
Qed.

(** ** Properties of the fan-out *)

Section FanoutFacts.

Variable n : nat.
Variable fetched : CallId -> FetchOutcome.

Local Abbreviation result := (resultOf fetched).
Local Abbreviation step := (complete n fetched).

Lemma GroupId_eqb_eq g h : GroupId_eqb g h = true <-> g = h.
Proof. destruct g, h; cbn; split; (reflexivity || discriminate). Qed.

Lemma GroupId_eqb_refl g : GroupId_eqb g g = true.
Proof. destruct g; reflexivity. Qed.

Lemma fulfilment_inl (sl : list (option RunResult)) (e : Failure) :
  fulfilment sl <> Some (inl e).
Proof. unfold fulfilment. destruct (mapM _ sl); discriminate. Qed.

Lemma fulfilment_inr (sl : list (option RunResult)) (vs : list RunResult) :
  fulfilment (E := Failure) sl = Some (inr vs) <->
  mapM (fun slot => slot) sl = Some vs.
Proof.
  unfold fulfilment. destruct (mapM _ sl); split; intros H;
    (congruence || discriminate).
Qed.

Lemma settles_settled i r (p : PromiseAll Failure RunResult) s :
  settled p = Some s -> settles i r p = p.
Proof. intros H. unfold settles. rewrite H. reflexivity. Qed.

Lemma sound_rejected g p e :
  sound n fetched g p -> settled p = Some (inl e) ->
  exists i, (i < n)%nat /\ result g i = inl e.
Proof.
  intros (_ & _ & [Hs | (e' & i & Hs & Hi & Hr)]) H.
  - rewrite Hs in H. now apply fulfilment_inl in H.
  - exists i. split; [exact Hi | congruence].
Qed.

Lemma sound_fulfilled g p vs :
  sound n fetched g p -> settled p = Some (inr vs) -> inRunOrder n fetched g vs.
Proof.
  intros (Hlen & Hslots & [Hs | (e' & i & Hs & _)]) H; [|congruence].
  rewrite Hs in H. apply fulfilment_inr, mapM_Some in H.
  split.
  - rewrite <- Hlen. symmetry. exact (Forall2_length _ _ _ H).
  - intros i v Hv.
    destruct (Forall2_lookup_r _ _ _ _ _ H Hv) as (slot & Hslot & ->).
    exact (Hslots _ _ Hslot).
Qed.

Lemma sound_Promise_all g : sound n fetched g (Promise_all n).
Proof.
  split; [apply length_replicate|]. split; [|left; reflexivity].
  intros i v H. cbn in H. apply lookup_replicate in H.
  destruct H as [H _]. discriminate H.
Qed.

Lemma settles_sound g i p :
  (i < n)%nat -> sound n fetched g p -> sound n fetched g (settles i (result g i) p).
Proof.
  intros Hi Hp. unfold settles.
  destruct (settled p) as [s|] eqn:Hs; [exact Hp|].
  destruct Hp as (Hlen & Hslots & _).
  destruct (result g i) as [e|v] eqn:Hr.
  - split; [exact Hlen|]. split; [exact Hslots|].
    right. exists e, i. cbn. auto.
  - split; [cbn; rewrite length_insert; exact Hlen|].
    split; [|left; reflexivity].
    intros j v' H. cbn in H. apply list_lookup_insert_Some in H.
    destruct H as [(<- & Hv & _) | (_ & H)].
    + congruence.
    + exact (Hslots _ _ H).
Qed.

Lemma join3_inl a b c e :
  join3 a b c = Some (inl e) ->
  a = Some (inl e) \/ b = Some (inl e) \/ c = Some (inl e).
Proof.
  destruct a as [[?|?]|], b as [[?|?]|], c as [[?|?]|]; cbn;
    intros H; try discriminate H; injection H as <-; auto.
Qed.

Lemma join3_inr a b c x y z :
  join3 a b c = Some (inr (x, y, z)) ->
  a = Some (inr x) /\ b = Some (inr y) /\ c = Some (inr z).
Proof.
  destruct a as [[?|?]|], b as [[?|?]|], c as [[?|?]|]; cbn;
    intros H; try discriminate H. injection H as <- <- <-. auto.
Qed.

Lemma join3_fulfilled x y z :
  join3 (Some (inr x)) (Some (inr y)) (Some (inr z)) = Some (inr (x, y, z)).
Proof. reflexivity. Qed.

Lemma rejoin_consistent groups previous :
  (forall g, sound n fetched g (groups g)) ->
  jointSoundFor n fetched groups previous ->
  consistent n fetched (rejoin groups previous).
Proof.
  intros Hg Hprev. split; [exact Hg|]. unfold rejoin. cbn [group joint].
  destruct previous as [j|]; [split; [exact Hprev | discriminate]|].
  split; [|auto].
  destruct (join3 _ _ _) as [[e|[[x y] z]]|] eqn:Hj; cbn; [| |exact I].
  - apply join3_inl in Hj. destruct Hj as [H | [H | H]].
    + exists G_openai. exact (sound_rejected _ _ _ (Hg _) H).
    + exists G_eigen. exact (sound_rejected _ _ _ (Hg _) H).
    + exists G_eigenRandom. exact (sound_rejected _ _ _ (Hg _) H).
  - exact (join3_inr _ _ _ _ _ _ Hj).
Qed.

Lemma consistent_start : consistent n fetched (start n).
Proof.
  apply rejoin_consistent; [|exact I].
  intros g. apply sound_Promise_all.
Qed.

Lemma consistent_step f c : consistent n fetched f -> consistent n fetched (step f c).
Proof.
  intros Hf. unfold complete.
  destruct (snd c <? n)%nat eqn:Hc; [|exact Hf].
  apply Nat.ltb_lt in Hc. destruct Hf as (Hg & Hj & _).
  apply rejoin_consistent.
  - intros g. destruct (GroupId_eqb g (fst c)) eqn:E; [|apply Hg].
    apply GroupId_eqb_eq in E. subst g.
    replace (fetched c) with (fetched (fst c, snd c)) by (now destruct c).
    apply (settles_sound (fst c) (snd c)); [exact Hc | apply Hg].
  - destruct (joint f) as [[e|[[x y] z]]|]; cbn in *; [exact Hj | | exact I].
    destruct Hj as (Hx & Hy & Hz).
    repeat split;
      match goal with
      | |- settled (if ?b then _ else _) = _ => destruct b
      end;
      erewrite ?settles_settled by eassumption; assumption.
Qed.

Lemma consistent_fold cs f :
  consistent n fetched f -> consistent n fetched (fold_left step cs f).
Proof.
  revert f. induction cs as [|c cs IH]; intros f Hf; [exact Hf|].
  cbn [fold_left]. apply IH, consistent_step, Hf.
Qed.

Lemma step_invalid f c : (snd c <? n)%nat = false -> step f c = f.
Proof. intros H. unfold complete. rewrite H. reflexivity. Qed.

Lemma step_sticky f c j : joint f = Some j -> joint (step f c) = Some j.
Proof.
  intros H. unfold complete. destruct (snd c <? n)%nat; [|exact H].
  cbn. rewrite H. reflexivity.
Qed.

Lemma fold_sticky cs f j :
  joint f = Some j -> joint (fold_left step cs f) = Some j.
Proof.
  revert f. induction cs as [|c cs IH]; intros f H; [exact H|].
  cbn [fold_left]. apply IH, step_sticky, H.
Qed.

Lemma result_of_call c :
  runOf (providerOf (fst c)) (fetched c) = result (fst c) (snd c).
Proof. destruct c; reflexivity. Qed.

(** While the joint promise is pending no group is rejected, and a group
    that has fulfilled holds the results of all its runs. *)
Lemma pending_group f g :
  consistent n fetched f -> joint f = None ->
  forall i e, (i < n)%nat -> result g i = inl e ->
  settled (group f g) = None.
Proof.
  intros (Hg & _ & Hnone) Hj i e Hi Hr. specialize (Hnone Hj).
  destruct (settled (group f g)) as [[e'|vs]|] eqn:Hs; [| |reflexivity].
  - exfalso. destruct g; rewrite Hs in Hnone;
      destruct (settled (group f G_openai)) as [[?|?]|];
      destruct (settled (group f G_eigen)) as [[?|?]|];
      destruct (settled (group f G_eigenRandom)) as [[?|?]|];
      cbn in Hnone; congruence.
  - exfalso. destruct (sound_fulfilled _ _ _ (Hg g) Hs) as [Hlen Hres].
    destruct (lookup_lt_is_Some_2 vs i) as [v Hv]; [lia|].
    specialize (Hres _ _ Hv). congruence.
Qed.

Lemma step_rejects f c e :
  consistent n fetched f -> joint f = None ->
  (snd c < n)%nat -> result (fst c) (snd c) = inl e ->
  joint (step f c) = Some (inl e).
Proof.
  intros Hf Hj Hc Hr.
  pose proof (pending_group f (fst c) Hf Hj _ _ Hc Hr) as Hpend.
  destruct Hf as (_ & _ & Hnone). specialize (Hnone Hj).
  unfold complete. apply Nat.ltb_lt in Hc. rewrite Hc.
  cbn [rejoin joint]. rewrite Hj, result_of_call, Hr.
  destruct c as [g i]. cbn [fst snd] in *.
  unfold settles.
  destruct g; cbn [GroupId_eqb]; rewrite Hpend; cbn [settled];
    rewrite Hpend in Hnone;
    destruct (settled (group f G_openai)) as [[?|?]|];
    destruct (settled (group f G_eigen)) as [[?|?]|];
    destruct (settled (group f G_eigenRandom)) as [[?|?]|];
    cbn in *; congruence.
Qed.

Lemma step_fulfils_not_rejected f c v e :
  consistent n fetched f -> joint f = None ->
  (snd c < n)%nat -> result (fst c) (snd c) = inr v ->
  joint (step f c) <> Some (inl e).
Proof.
  intros (_ & _ & Hnone) Hj Hc Hr. specialize (Hnone Hj).
  unfold complete. apply Nat.ltb_lt in Hc. rewrite Hc.
  cbn [rejoin joint]. rewrite Hj, result_of_call, Hr.
  intros H. apply join3_inl in H.
  assert (Hkeep : forall g,
    settled (if GroupId_eqb g (fst c)
             then settles (snd c) (inr v) (group f g) else group f g)
    = Some (inl e) ->
    settled (group f g) = Some (inl e)).
  { intros g. destruct (GroupId_eqb g (fst c)); [|auto].
    unfold settles. destruct (settled (group f g)) eqn:Hs; [congruence|].
    cbn. intros Hf. now apply fulfilment_inl in Hf. }
  destruct H as [H | [H | H]]; apply Hkeep in H; rewrite H in Hnone;
    destruct (settled (group f G_openai)) as [[?|?]|];
    destruct (settled (group f G_eigen)) as [[?|?]|];
    destruct (settled (group f G_eigenRandom)) as [[?|?]|];
    cbn in Hnone; congruence.
Qed.

Lemma firstRejection_In cs e :
  firstRejection n fetched cs = Some e ->
  exists c, In c cs /\ (snd c < n)%nat /\ result (fst c) (snd c) = inl e.
Proof.
  induction cs as [|c cs IH]; cbn [firstRejection]; [discriminate|].
  destruct (snd c <? n)%nat eqn:Hc.
  - destruct (result (fst c) (snd c)) as [e'|v] eqn:Hr.
    + intros [= <-]. exists c. apply Nat.ltb_lt in Hc. cbn. auto.
    + intros H. destruct (IH H) as (c' & Hin & H'). exists c'. cbn. auto.
  - intros H. destruct (IH H) as (c' & Hin & H'). exists c'. cbn. auto.
Qed.

Lemma firstRejection_exists cs c e :
  In c cs -> (snd c < n)%nat -> result (fst c) (snd c) = inl e ->
  exists e', firstRejection n fetched cs = Some e'.
Proof.
  intros Hin Hc Hr. induction cs as [|d cs IH]; [destruct Hin|].
  cbn [firstRejection].
  destruct (snd d <? n)%nat eqn:Hd.
  - destruct (result (fst d) (snd d)) as [e'|v] eqn:Hrd; [eauto|].
    destruct Hin as [-> | Hin]; [congruence | auto].
  - destruct Hin as [-> | Hin]; [|auto].
    apply Nat.ltb_lt in Hc. congruence.
Qed.

(** A joint promise that has fulfilled leaves no run that rejects. *)
Lemma fulfilled_no_rejection f x y z c e :
  consistent n fetched f -> joint f = Some (inr (x, y, z)) ->
  (snd c < n)%nat -> result (fst c) (snd c) = inl e -> False.
Proof.
  intros (Hg & Hj & _) Hjoint Hc Hr. rewrite Hjoint in Hj. cbn in Hj.
  destruct Hj as (Hx & Hy & Hz).
  assert (Hs : exists vs, settled (group f (fst c)) = Some (inr vs))
    by (destruct (fst c); eauto).
  destruct Hs as [vs Hs].
  destruct (sound_fulfilled _ _ _ (Hg _) Hs) as [Hlen Hres].
  destruct (lookup_lt_is_Some_2 vs (snd c)) as [v Hv]; [lia|].
  specialize (Hres _ _ Hv). congruence.
Qed.

(** The joint promise rejects with the first rejection. *)
Lemma fold_rejects cs f e :
  consistent n fetched f -> joint f = None ->
  firstRejection n fetched cs = Some e ->
  joint (fold_left step cs f) = Some (inl e).
Proof.
  revert f. induction cs as [|c cs IH]; intros f Hf Hj; [discriminate|].
  cbn [firstRejection fold_left].
  destruct (snd c <? n)%nat eqn:Hc.
  - pose proof Hc as Hlt. apply Nat.ltb_lt in Hlt.
    destruct (result (fst c) (snd c)) as [e'|v] eqn:Hr.
    + intros [= <-]. apply fold_sticky. now apply step_rejects.
    + intros Hrest.
      pose proof (consistent_step f c Hf) as Hf'.
      destruct (joint (step f c)) as [[e'|[[x y] z]]|] eqn:Hj'.
      * now apply (step_fulfils_not_rejected f c v e') in Hj'.
      * exfalso. destruct (firstRejection_In _ _ Hrest) as (c' & _ & Hc' & Hr').
        exact (fulfilled_no_rejection _ _ _ _ _ _ Hf' Hj' Hc' Hr').
      * now apply IH.
  - rewrite (step_invalid f c Hc). now apply IH.
Qed.

Lemma step_keeps_filled f c g i : filled f g i -> filled (step f c) g i.
Proof.
  intros [v Hv]. unfold complete, filled.
  destruct (snd c <? n)%nat; [|eauto]. cbn [rejoin group].
  destruct (GroupId_eqb g (fst c)); [|eauto].
  unfold settles. destruct (settled (group f g)); [eauto|].
  destruct (runOf _ _) as [e|v']; [eauto|]. cbn [slots].
  destruct (Nat.eq_dec (snd c) i) as [<-|Hne].
  - exists v'. apply list_lookup_insert_eq. exact (lookup_lt_Some _ _ _ Hv).
  - exists v. rewrite list_lookup_insert_ne by exact Hne. exact Hv.
Qed.

Section AllSucceed.

Hypothesis succeed : forall g i, (i < n)%nat -> exists v, result g i = inr v.

Lemma sound_settled_fulfilment g p :
  sound n fetched g p -> settled p = fulfilment (slots p).
Proof.
  intros (_ & _ & [H | (e & i & _ & Hi & Hr)]); [exact H|].
  destruct (succeed g i Hi) as [v Hv]. congruence.
Qed.

Lemma step_fills f c :
  consistent n fetched f -> (snd c < n)%nat -> filled (step f c) (fst c) (snd c).
Proof.
  intros (Hg & _) Hc. unfold complete, filled.
  pose proof Hc as Hlt. apply Nat.ltb_lt in Hlt. rewrite Hlt.
  cbn [rejoin group]. rewrite GroupId_eqb_refl, result_of_call.
  destruct (succeed (fst c) (snd c) Hc) as [v Hv]. rewrite Hv.
  pose proof (Hg (fst c)) as Hp. destruct Hp as (Hlen & _).
  unfold settles. destruct (settled (group f (fst c))) as [s|] eqn:Hs.
  - rewrite (sound_settled_fulfilment _ _ (Hg (fst c))) in Hs.
    destruct s as [e|vs]; [now apply fulfilment_inl in Hs|].
    apply fulfilment_inr, mapM_Some in Hs.
    destruct (lookup_lt_is_Some_2 (slots (group f (fst c))) (snd c))
      as [slot Hslot]; [lia|].
    destruct (Forall2_lookup_l _ _ _ _ _ Hs Hslot) as (v' & _ & ->).
    eauto.
  - exists v. cbn [slots]. apply list_lookup_insert_eq. lia.
Qed.

Lemma fold_fills cs f g i :
  consistent n fetched f ->
  (i < n)%nat ->
  In (g, i) cs \/ filled f g i ->
  filled (fold_left step cs f) g i.
Proof.
  revert f. induction cs as [|c cs IH]; intros f Hf Hi H.
  - destruct H as [[] | H]. exact H.
  - cbn [fold_left]. apply IH; [now apply consistent_step | exact Hi |].
    destruct H as [[-> | Hin] | Hfilled].
    + right. now apply (step_fills f (g, i)).
    + left. exact Hin.
    + right. now apply step_keeps_filled.
Qed.

Lemma filled_group_fulfilled f g :
  consistent n fetched f ->
  (forall i, (i < n)%nat -> filled f g i) ->
  exists vs, settled (group f g) = Some (inr vs).
Proof.
  intros (Hg & _) Hall.
  rewrite (sound_settled_fulfilment _ _ (Hg g)).
  destruct (Hg g) as (Hlen & _).
  assert (Hsome : is_Some (mapM (fun slot => slot) (slots (group f g)))).
  { apply mapM_is_Some_2, Forall_lookup_2. intros i slot Hslot.
    destruct (Hall i) as [v Hv]; [apply lookup_lt_Some in Hslot; lia|].
    cbn. rewrite Hv in Hslot. injection Hslot as <-. eauto. }
  destruct Hsome as [vs Hvs]. exists vs. now apply fulfilment_inr.
Qed.

(** When every run settles and none rejects, the joint promise fulfils. *)
Lemma fold_fulfils cs :
  (forall g i, (i < n)%nat -> In (g, i) cs) ->
  exists x y z, joint (fold_left step cs (start n)) = Some (inr (x, y, z)).
Proof.
  intros Hall.
  pose proof (consistent_fold cs _ consistent_start) as Hf.
  set (f := fold_left step cs (start n)) in *.
  assert (Hfilled : forall g i, (i < n)%nat -> filled f g i).
  { intros g i Hi. apply fold_fills; [apply consistent_start | exact Hi |].
    left. now apply Hall. }
  destruct (filled_group_fulfilled f G_openai Hf (Hfilled _)) as [x Hx].
  destruct (filled_group_fulfilled f G_eigen Hf (Hfilled _)) as [y Hy].
  destruct (filled_group_fulfilled f G_eigenRandom Hf (Hfilled _)) as [z Hz].
  destruct Hf as (_ & Hj & Hnone).
  destruct (joint f) as [[e|[[x' y'] z']]|] eqn:Hjoint.
  - cbn in Hj. destruct Hj as (g & i & Hi & Hr).
    destruct (succeed g i Hi) as [v Hv]. congruence.
  - eauto.
  - specialize (Hnone eq_refl). rewrite Hx, Hy, Hz in Hnone. discriminate.
Qed.

End AllSucceed.

(** A joint promise that has fulfilled holds the results of the three
    groups by run index. *)
Lemma fulfilled_in_run_order f x y z :
  consistent n fetched f -> joint f = Some (inr (x, y, z)) ->
  inRunOrder n fetched G_openai x /\
  inRunOrder n fetched G_eigen y /\
  inRunOrder n fetched G_eigenRandom z.
Proof.
  intros (Hg & Hj & _) Hjoint. rewrite Hjoint in Hj. cbn in Hj.
  destruct Hj as (Hx & Hy & Hz).
  repeat split; eapply sound_fulfilled; eauto.
Qed.

End FanoutFacts.

(** ** Properties of the handler *)

Section Validation.

Lemma trimStart_blank p : forallb isWhiteSpace p = true -> trimStart p = [].
Proof.
  induction p as [|c p IH]; cbn [forallb trimStart]; [reflexivity|].
  intros H. apply andb_true_iff in H. destruct H as [-> H]. exact (IH H).
Qed.

Lemma trim_blank p : forallb isWhiteSpace p = true -> trim p = [].
Proof. intros H. unfold trim. rewrite (trimStart_blank p H). reflexivity. Qed.

Lemma trimStart_not_blank p :
  forallb isWhiteSpace p = false -> trimStart p <> [].
Proof.
  induction p as [|c p IH]; cbn [forallb trimStart]; [discriminate|].
  destruct (isWhiteSpace c); [exact IH | discriminate].
Qed.

Lemma trim_not_blank p : forallb isWhiteSpace p = false -> trim p <> [].
Proof.
  intros H. apply trimStart_not_blank in H. unfold trim.
  destruct (trimStart_head p) as [E | (c & r & E & Hc)]; [congruence|].
  rewrite E. unfold trimEnd. cbn [rev].
  destruct (trimStart_app_keep (rev r) c Hc) as [u ->].
  rewrite rev_app_distr. discriminate.
Qed.

Lemma POST_blank K parsed w :
  blankPrompt parsed = true ->
  POST K parsed w = answer 400 "Prompt is required.".
Proof.
  intros H. unfold POST.
  destruct parsed as [b|]; cbn [from_option id blankPrompt] in *;
    [|reflexivity].
  destruct (prompt b) as [[| | | p | |]|]; cbn [trimmedPrompt];
    try discriminate H; try reflexivity.
  rewrite (trim_blank p H). reflexivity.
Qed.

(** A request has a prompt when its prompt is a string that is not blank. *)
Lemma hasPrompt_text parsed :
  hasPrompt parsed = true ->
  exists b q,
    parsed = Some b /\ prompt b = Some (JString q) /\
    forallb isWhiteSpace q = false.
Proof.
  destruct parsed as [b|]; cbn [hasPrompt]; [|discriminate].
  destruct (prompt b) as [[| | | q | |]|] eqn:Hq; try discriminate.
  intros H. exists b, q. split; [reflexivity|]. split; [exact Hq|].
  now apply negb_true_iff in H.
Qed.

Lemma hasPrompt_not_blank parsed :
  hasPrompt parsed = true -> blankPrompt parsed = false.
Proof.
  intros H. destruct (hasPrompt_text parsed H) as (b & q & -> & Hq & Hw).
  cbn [blankPrompt]. rewrite Hq. exact Hw.
Qed.

(** With a prompt the handler goes on to the keys. *)
Lemma POST_prompt K parsed w :
  hasPrompt parsed = true ->
  exists b p,
    parsed = Some b /\ trimmedPrompt (prompt b) = inr (Some p) /\ p <> [] /\
    POST K parsed w =
      match OPENAI_API_KEY (env w), EIGENAI_API_KEY (env w) with
      | None, _ | Some [], _ =>
          answer 500 "Missing OPENAI_API_KEY environment variable."
      | Some _, None | Some _, Some [] =>
          answer 500 "Missing EIGENAI_API_KEY environment variable."
      | Some openaiKey, Some eigenKey =>
          runComparison K b p openaiKey eigenKey w
      end.
Proof.
  intros H. destruct (hasPrompt_text parsed H) as (b & q & -> & Hq & Hw).
  exists b, (trim q). split; [reflexivity|].
  split; [rewrite Hq; reflexivity|]. split; [exact (trim_not_blank q Hw)|].
  unfold POST. cbn [from_option id]. rewrite Hq. cbn [trimmedPrompt].
  pose proof (trim_not_blank q Hw) as Hne.
  destruct (trim q) as [|c r]; [congruence | reflexivity].
Qed.

Lemma POST_run K parsed w :
  hasPrompt parsed = true ->
  missing (OPENAI_API_KEY (env w)) = false ->
  missing (EIGENAI_API_KEY (env w)) = false ->
  exists b p k1 k2,
    parsed = Some b /\
    POST K parsed w = runComparison K b p k1 k2 w.
Proof.
  intros Hp H1 H2.
  destruct (POST_prompt K parsed w Hp) as (b & p & -> & _ & _ & ->).
  exists b, p.
  destruct (OPENAI_API_KEY (env w)) as [[|c1 k1]|]; try discriminate H1.
  destruct (EIGENAI_API_KEY (env w)) as [[|c2 k2]|]; try discriminate H2.
  eauto.
Qed.

(** A prompt that is neither missing nor a string makes the handler
    throw. *)
Lemma POST_throws_prompt K parsed w :
  blankPrompt parsed = false -> hasPrompt parsed = false ->
  POST K parsed w = throws TypeError.
Proof.
  unfold POST. destruct parsed as [b|]; cbn [blankPrompt hasPrompt];
    [|discriminate].
  cbn [from_option id].
  destruct (prompt b) as [[| | | q | |]|]; cbn [trimmedPrompt];
    try discriminate; try reflexivity.
  intros -> H. discriminate H.
Qed.

End Validation.

(** C6: a request whose prompt is absent, empty or white space only is
    answered with status 400 and the message ["Prompt is required."], and no
    upstream call is issued. *)
Theorem POST_prompt_required (K : Constants) (parsed : option CompareRequest)
    (w : World) :
  blankPrompt parsed = true ->
  response (POST K parsed w)
  = Some {| status := 400; body := ErrorBody (lit "Prompt is required.") |} /\
  issued (POST K parsed w) = [].
Proof.
  intros H. rewrite (POST_blank K parsed w H). split; reflexivity.
Qed.

Lemma POST_prompt_required_witness :
  blankPrompt (Some {| prompt := Some (JString (lit "   ")); runs := None;
                       eigenSeed := None; openaiMaxTokens := None;
                       eigenMaxTokens := None |}) = true /\
  issued (POST exampleConstants
            (Some {| prompt := Some (JString (lit "   ")); runs := None;
                     eigenSeed := None; openaiMaxTokens := None;
                     eigenMaxTokens := None |}) exampleWorld) = [].
Proof.
  split.
  - vm_compute. reflexivity.
  - apply (POST_prompt_required exampleConstants
             (Some {| prompt := Some (JString (lit "   ")); runs := None;
                      eigenSeed := None; openaiMaxTokens := None;
                      eigenMaxTokens := None |}) exampleWorld).
    vm_compute. reflexivity.
Defined.

(** C7 (as stated): a request with no prompt is answered with status 400
    even when both keys are missing. *)
Lemma POST_missing_key_not_always_500 :
  ~ (forall K parsed w,
       missing (OPENAI_API_KEY (env w)) = true \/
       missing (EIGENAI_API_KEY (env w)) = true ->
       exists msg,
         response (POST K parsed w)
         = Some {| status := 500; body := ErrorBody msg |}).
Proof.
  intros H.
  destruct (H exampleConstants None noKeysWorld) as [msg Hmsg].
  - left. reflexivity.
  - vm_compute in Hmsg. discriminate Hmsg.
Qed.

(** C7 (amended): for a request whose prompt is a string that is not blank,
    a missing key is answered with status 500 and a message that names it,
    the first provider's key being looked at first, and no upstream call is
    issued. *)
Theorem POST_missing_key (K : Constants) (parsed : option CompareRequest)
    (w : World) :
  hasPrompt parsed = true ->
  (missing (OPENAI_API_KEY (env w)) = true ->
   response (POST K parsed w)
   = Some {| status := 500;
             body := ErrorBody
                       (lit "Missing OPENAI_API_KEY environment variable.") |}
   /\ issued (POST K parsed w) = []) /\
  (missing (OPENAI_API_KEY (env w)) = false ->
   missing (EIGENAI_API_KEY (env w)) = true ->
   response (POST K parsed w)
   = Some {| status := 500;
             body := ErrorBody
                       (lit "Missing EIGENAI_API_KEY environment variable.") |}
   /\ issued (POST K parsed w) = []).
Proof.
  intros Hp.
  destruct (POST_prompt K parsed w Hp) as (b & p & _ & _ & _ & ->).
  split.
  - intros H1.
    destruct (OPENAI_API_KEY (env w)) as [[|c1 k1]|]; try discriminate H1;
      split; reflexivity.
  - intros H1 H2.
    destruct (OPENAI_API_KEY (env w)) as [[|c1 k1]|]; try discriminate H1.
    destruct (EIGENAI_API_KEY (env w)) as [[|c2 k2]|]; try discriminate H2;
      split; reflexivity.
Qed.

Lemma POST_missing_key_witness :
  hasPrompt (Some exampleRequest) = true /\
  missing (OPENAI_API_KEY (env noKeysWorld)) = true /\
  issued (POST exampleConstants (Some exampleRequest) noKeysWorld) = [].
Proof.
  split; [vm_compute; reflexivity|]. split; [vm_compute; reflexivity|].
  apply (proj1 (POST_missing_key exampleConstants (Some exampleRequest)
                  noKeysWorld eq_refl)).
  vm_compute. reflexivity.
Defined.

Section Comparison.

Lemma upstreamFails_rejected p o :
  upstreamFails o = true -> exists e, runOf p o = inl e.
Proof.
  destruct o as [e | st text json]; cbn [upstreamFails runOf].
  - eauto.
  - intros ->. eauto.
Qed.

Lemma runCount_started K b x n :
  effectiveRuns K (runs b) = inr x -> arrayLength x = Some n ->
  runCount K (Some b) = n.
Proof.
  intros Hx H. unfold runCount. cbn [from_option id]. now rewrite Hx, H.
Qed.

(** A run was started: the run count was converted and an array of its
    length was created. *)
Lemma runCount_positive K b i :
  (i < runCount K (Some b))%nat ->
  exists x,
    effectiveRuns K (runs b) = inr x /\
    arrayLength x = Some (runCount K (Some b)).
Proof.
  unfold runCount. cbn [from_option id].
  destruct (effectiveRuns K (runs b)) as [e|x]; [intros H; lia|].
  destruct (arrayLength x) as [n|] eqn:Ha; cbn [from_option id]; intros H;
    [exists x; split; [reflexivity | exact Ha] | lia].
Qed.

Lemma runComparison_rejected K b p k1 k2 w x n e :
  effectiveRuns K (runs b) = inr x -> arrayLength x = Some n ->
  joint (fanout n w) = Some (inl e) ->
  response (runComparison K b p k1 k2 w) = Some GENERIC_FAILURE /\
  logged (runComparison K b p k1 k2 w) = Some e.
Proof.
  intros Hx Ha H. unfold runComparison. rewrite Hx, Ha, H. split; reflexivity.
Qed.

Lemma runComparison_fulfilled K b p k1 k2 w x n xs ys zs :
  effectiveRuns K (runs b) = inr x -> arrayLength x = Some n ->
  joint (fanout n w) = Some (inr (xs, ys, zs)) ->
  exists o e r,
    response (runComparison K b p k1 k2 w)
    = Some {| status := 200; body := Comparison p o e r |} /\
    (responses o = xs /\ responses e = ys /\ responses r = zs) /\
    (group_runs o = x /\ group_runs e = x /\ group_runs r = x).
Proof.
  intros Hx Ha H. unfold runComparison. rewrite Hx, Ha, H. do 3 eexists.
  split; [reflexivity|]. repeat split.
Qed.

(** What a response with status 200 and a comparison is made of. *)
Lemma POST_success K parsed w p o e r :
  response (POST K parsed w)
  = Some {| status := 200; body := Comparison p o e r |} ->
  exists v x y z,
    effectiveRuns K (runs (default emptyRequest parsed)) = inr v /\
    arrayLength v = Some (runCount K parsed) /\
    joint (fanout (runCount K parsed) w) = Some (inr (x, y, z)) /\
    responses o = x /\ responses e = y /\ responses r = z /\
    group_runs o = v /\ group_runs e = v /\ group_runs r = v.
Proof.
  unfold POST, runCount.
  destruct (trimmedPrompt _) as [t|[[|c q]|]]; try discriminate.
  destruct (OPENAI_API_KEY (env w)) as [[|c1 k1]|]; try discriminate.
  destruct (EIGENAI_API_KEY (env w)) as [[|c2 k2]|]; try discriminate.
  unfold runComparison.
  destruct (effectiveRuns K _) as [t|v]; [discriminate|].
  destruct (arrayLength v) as [n|] eqn:Ha; [|discriminate].
  cbn [from_option id].
  destruct (joint (fanout n w)) as [[f|[[x y] z]]|]; try discriminate.
  cbn [response]. intros [= <- <- <- <-]. exists v, x, y, z.
  repeat split. exact Ha.
Qed.

Lemma arrayLength_ofZ z n :
  0 <= z -> arrayLength (ofZ z) = Some n -> n = Z.to_nat z.
Proof.
  intros H0. unfold arrayLength, toLength, ofZ. rewrite Qfloor_Z.
  assert (Hsafe : MAX_SAFE_INTEGER = 9007199254740991) by reflexivity.
  assert (Harr : MAX_ARRAY_LENGTH = 4294967295) by reflexivity.
  destruct (Z.leb_spec (Z.min (Z.max z 0) MAX_SAFE_INTEGER) MAX_ARRAY_LENGTH);
    [|discriminate].
  intros [= <-]. f_equal. lia.
Qed.

Lemma arrayLength_small z :
  z <= MAX_ARRAY_LENGTH -> exists n, arrayLength (ofZ z) = Some n.
Proof.
  intros H. unfold arrayLength, toLength, ofZ. rewrite Qfloor_Z.
  assert (Hsafe : MAX_SAFE_INTEGER = 9007199254740991) by reflexivity.
  assert (Harr : MAX_ARRAY_LENGTH = 4294967295) by reflexivity.
  destruct (Z.leb_spec (Z.min (Z.max z 0) MAX_SAFE_INTEGER) MAX_ARRAY_LENGTH);
    [eauto | lia].
Qed.

(** With a run count that converts and an upper bound of which an array can
    be created, the runs are started. *)
Lemma runs_started K parsed :
  MAX_RUNS K <= MAX_ARRAY_LENGTH ->
  runsConvert parsed = true ->
  exists x,
    effectiveRuns K (runs (default emptyRequest parsed)) = inr x /\
    arrayLength x = Some (runCount K parsed).
Proof.
  intros Hmax Hc. unfold runsConvert in Hc. unfold runCount.
  destruct (effectiveRuns_converts K (runs (default emptyRequest parsed)))
    as [x Hx].
  { destruct (runs _) as [v|]; [|exact I]. now apply negb_true_iff in Hc. }
  rewrite Hx. exists x. split; [reflexivity|].
  destruct (effectiveRuns_cases K _ x Hx) as [-> | (k & -> & Hk)];
    [reflexivity|].
  destruct (arrayLength_small k) as [n Ha]; [lia|]. now rewrite Ha.
Qed.

(** Without runs the three groups and the joint promise are fulfilled from
    the start, whatever settles. *)
Lemma fanout_no_runs w : joint (fanout 0 w) = Some (inr ([], [], [])).
Proof. unfold fanout. now apply fold_sticky. Qed.

End Comparison.

(** C8: for a request with a prompt and both keys, when a run that settles
    has failed upstream, with a status that is not 2xx, a transport failure
    or a time-out, the handler answers with the generic status-500
    response, which carries no result of any group and nothing of the
    upstream error, and the error it logs is the first rejection in the
    order in which the runs settled. *)
Theorem POST_upstream_failure (K : Constants)
    (parsed : option CompareRequest) (w : World) (c : CallId) :
  hasPrompt parsed = true ->
  missing (OPENAI_API_KEY (env w)) = false ->
  missing (EIGENAI_API_KEY (env w)) = false ->
  In c (completions w) ->
  (snd c < runCount K parsed)%nat ->
  upstreamFails (fetched w c) = true ->
  response (POST K parsed w) = Some GENERIC_FAILURE /\
  exists e,
    firstRejection (runCount K parsed) (fetched w) (completions w) = Some e /\
    logged (POST K parsed w) = Some e.
Proof.
  intros Hp H1 H2 Hin Hc Hfail.
  destruct (POST_run K parsed w Hp H1 H2) as (b & p & k1 & k2 & -> & ->).
  destruct (runCount_positive K b _ Hc) as (x & Hx & Ha).
  set (n := runCount K (Some b)) in *.
  destruct (upstreamFails_rejected (providerOf (fst c)) _ Hfail) as [e0 He0].
  rewrite result_of_call in He0.
  destruct (firstRejection_exists _ _ _ _ _ Hin Hc He0) as [e He].
  assert (Hj : joint (fanout n w) = Some (inl e)).
  { unfold fanout. apply fold_rejects; [apply consistent_start | | exact He].
    unfold start, rejoin. cbn [joint].
    destruct n; [lia | reflexivity]. }
  destruct (runComparison_rejected K b p k1 k2 w x n e Hx Ha Hj) as [Hr Hl].
  split; [exact Hr|]. exists e. split; [exact He | exact Hl].
Qed.

Lemma POST_upstream_failure_witness :
  In (G_eigen, 1%nat) (completions failingWorld) /\
  upstreamFails (fetched failingWorld (G_eigen, 1%nat)) = true /\
  response (POST exampleConstants (Some exampleRequest) failingWorld)
  = Some GENERIC_FAILURE.
Proof.
  split; [cbn; tauto|]. split; [reflexivity|].
  apply (POST_upstream_failure exampleConstants (Some exampleRequest)
           failingWorld (G_eigen, 1%nat)).
  - reflexivity.
  - reflexivity.
  - reflexivity.
  - cbn. tauto.
  - vm_compute. lia.
  - reflexivity.
Defined.

(** C9: when every run that was started settles, in whatever order, and
    none is rejected, the handler answers with status 200 and the
    [responses] of each group list the results of its runs by run index:
    the entry at index [i] is the result of run [i].  ([MAX_RUNS] is taken
    to be a length of which an array can be created, and the run count of
    the request to be a value that converts to a number, without which no
    run is started.) *)
Theorem responses_in_run_order (K : Constants)
    (parsed : option CompareRequest) (w : World) :
  MAX_RUNS K <= MAX_ARRAY_LENGTH ->
  hasPrompt parsed = true ->
  runsConvert parsed = true ->
  missing (OPENAI_API_KEY (env w)) = false ->
  missing (EIGENAI_API_KEY (env w)) = false ->
  (forall g i, (i < runCount K parsed)%nat -> In (g, i) (completions w)) ->
  (forall g i, (i < runCount K parsed)%nat ->
               exists v, resultOf (fetched w) g i = inr v) ->
  exists p o e r,
    response (POST K parsed w)
    = Some {| status := 200; body := Comparison p o e r |} /\
    inRunOrder (runCount K parsed) (fetched w) G_openai (responses o) /\
    inRunOrder (runCount K parsed) (fetched w) G_eigen (responses e) /\
    inRunOrder (runCount K parsed) (fetched w) G_eigenRandom (responses r).
Proof.
  intros Hmax Hp Hc H1 H2 Hall Hok.
  destruct (runs_started K parsed Hmax Hc) as (v & Hv & Ha).
  destruct (POST_run K parsed w Hp H1 H2) as (b & p & k1 & k2 & -> & ->).
  cbn [from_option id] in Hv.
  set (n := runCount K (Some b)) in *.
  destruct (fold_fulfils n (fetched w) Hok (completions w) Hall)
    as (x & y & z & Hj).
  destruct (runComparison_fulfilled K b p k1 k2 w v n x y z Hv Ha Hj)
    as (o & e & r & Hresp & (Hx & Hy & Hz) & _).
  exists p, o, e, r. split; [exact Hresp|]. rewrite Hx, Hy, Hz.
  apply (fulfilled_in_run_order n (fetched w) (fanout n w)).
  - apply consistent_fold, consistent_start.
  - exact Hj.
Qed.

Lemma responses_in_run_order_witness :
  exists p o e r,
    response (POST exampleConstants (Some exampleRequest) exampleWorld)
    = Some {| status := 200; body := Comparison p o e r |} /\
    inRunOrder 2 (fetched exampleWorld) G_openai (responses o) /\
    map message (responses o) = [lit "> Tokyo 0"; lit "> Tokyo 1"] /\
    map message (responses e) = [lit "Tokyo 0"; lit "Tokyo 1"].
Proof.
  destruct (responses_in_run_order exampleConstants (Some exampleRequest)
              exampleWorld)
    as (p & o & e & r & Hresp & Ho & _).
  - vm_compute. discriminate.
  - reflexivity.
  - reflexivity.
  - reflexivity.
  - reflexivity.
  - intros g i Hi. change (runCount _ _) with 2%nat in Hi.
    assert (Hcases : i = 0%nat \/ i = 1%nat) by lia.
    destruct g, Hcases as [-> | ->]; cbn; tauto.
  - intros g i Hi. destruct g; cbn; eauto.
  - exists p, o, e, r. split; [exact Hresp|]. split; [exact Ho|].
    vm_compute in Hresp. injection Hresp as <- <- <- <-.
    split; vm_compute; reflexivity.
Defined.

(** C10 (as the code has it): a request whose [runs] is not a number, here
    the string ["abc"], is answered with status 200 whatever the bounds and
    the world, once both keys are set: no upstream call is issued, every
    group has [NaN] as its [runs], which the response body shows as [null],
    and no [responses], so that the length of [responses], 0, is not the
    [runs] beside it.  Line 72 does not test [body.runs] with
    [Number.isFinite] as lines 73-75 test [body.eigenSeed]. *)
Theorem groups_runs_not_a_number (K : Constants) (w : World) :
  missing (OPENAI_API_KEY (env w)) = false ->
  missing (EIGENAI_API_KEY (env w)) = false ->
  exists o e r,
    response (POST K (Some textRunsRequest) w)
    = Some {| status := 200; body := Comparison (lit "hello") o e r |} /\
    issued (POST K (Some textRunsRequest) w) = [] /\
    (group_runs o = NaN /\ responses o = []) /\
    (group_runs e = NaN /\ responses e = []) /\
    (group_runs r = NaN /\ responses r = []).
Proof.
  intros H1 H2. unfold POST. cbn [from_option id].
  change (trimmedPrompt (prompt textRunsRequest))
    with (@inr Uncaught _ (Some (104%N :: lit "ello"))).
  destruct (OPENAI_API_KEY (env w)) as [[|c1 t1]|]; try discriminate H1.
  destruct (EIGENAI_API_KEY (env w)) as [[|c2 t2]|]; try discriminate H2.
  cbv beta iota. unfold runComparison.
  change (effectiveRuns K (runs textRunsRequest)) with (@inr Uncaught _ NaN).
  cbv beta iota. change (arrayLength NaN) with (Some 0%nat).
  cbv beta iota zeta. rewrite fanout_no_runs. cbv beta iota.
  do 3 eexists. split; [reflexivity|]. repeat split.
Qed.

Lemma groups_runs_not_a_number_witness :
  exists o e r,
    response (POST exampleConstants (Some textRunsRequest) exampleWorld)
    = Some {| status := 200; body := Comparison (lit "hello") o e r |} /\
    group_runs o = NaN /\ List.length (responses o) = 0%nat.
Proof.
  destruct (groups_runs_not_a_number exampleConstants exampleWorld
              eq_refl eq_refl)
    as (o & e & r & Hresp & _ & (Ho & Hl) & _).
  exists o, e, r. split; [exact Hresp|]. split; [exact Ho|].
  rewrite Hl. reflexivity.
Defined.

(** * Further properties *)

(** ** The cleanup on plain text, control tokens and blockquotes *)

Section CleanupFacts.

Lemma removeTags_cons c r :
  removeTags (c :: r) =
  match matchTag (c :: r) with
  | Some rest => removeTags rest
  | None => c :: removeTags r
  end.
Proof.
  funelim (removeTags (c :: r));
    match goal with
    | E : matchTag _ = _ |- _ => rewrite E
    end; reflexivity.
Qed.

Lemma lacks_In c s d : lacks c s = true -> In d s -> d <> c.
Proof.
  unfold lacks. rewrite forallb_forall. intros H Hin.
  specialize (H d Hin). apply negb_true_iff, N.eqb_neq in H. exact H.
Qed.

Lemma lacks_of_In c s : (forall d, In d s -> d <> c) -> lacks c s = true.
Proof.
  intros H. unfold lacks. apply forallb_forall. intros d Hd.
  apply negb_true_iff, N.eqb_neq. exact (H d Hd).
Qed.

Lemma lacks_app c s t : lacks c (s ++ t) = lacks c s && lacks c t.
Proof. unfold lacks. apply forallb_app. Qed.

Lemma trimStart_In s d : In d (trimStart s) -> In d s.
Proof.
  induction s as [|c s IH]; cbn [trimStart]; [tauto|].
  destruct (isWhiteSpace c); [|tauto]. intros H. right. exact (IH H).
Qed.

Lemma trim_In s d : In d (trim s) -> In d s.
Proof.
  unfold trim, trimEnd. intros H.
  apply in_rev, trimStart_In, in_rev, trimStart_In in H. exact H.
Qed.

Lemma lacks_trim c s : lacks c s = true -> lacks c (trim s) = true.
Proof.
  intros H. apply lacks_of_In. intros d Hd.
  exact (lacks_In c s d H (trim_In s d Hd)).
Qed.

(** What [trim] returns has no white space at either end. *)
Lemma trim_edgesClean s : edgesClean (trim s) = true.
Proof.
  unfold trim.
  destruct (trimStart_head s) as [-> | (c & r & -> & Hc)]; [reflexivity|].
  unfold trimEnd. cbn [rev].
  destruct (trimStart_app_keep (rev r) c Hc) as [u Hu].
  destruct (trimStart_head (rev r ++ [c])) as [E | (d & t & E & Hd)].
  - rewrite Hu in E. now destruct u.
  - rewrite Hu, rev_app_distr. cbn [rev app edgesClean].
    rewrite Hc. cbn [negb andb].
    replace (c :: rev u) with (rev (d :: t))
      by (rewrite <- E, Hu, rev_app_distr; reflexivity).
    cbn [rev]. rewrite last_last, Hd. reflexivity.
Qed.

Lemma tagRest_lacks s : lacks GT s = true -> tagRest s = None.
Proof.
  induction s as [|c s IH]; [reflexivity|].
  intros H. cbn [lacks forallb] in H. apply andb_true_iff in H.
  destruct H as [Hc Hs]. cbn [tagRest].
  destruct s as [|d s']; [reflexivity|].
  pose proof Hs as Hd. cbn [lacks forallb] in Hd.
  apply andb_true_iff in Hd. destruct Hd as [Hd _].
  apply negb_true_iff in Hc, Hd. rewrite Hc, Hd, andb_false_r.
  exact (IH Hs).
Qed.

Lemma matchTag_lacks s : lacks GT s = true -> matchTag s = None.
Proof.
  destruct s as [|a [|b [|c s]]]; try reflexivity.
  intros H. cbn [matchTag].
  destruct ((a =? LT)%N && (b =? PIPE)%N && negb (c =? GT)%N);
    [|reflexivity].
  apply tagRest_lacks. cbn [lacks forallb] in H.
  rewrite !andb_true_iff in H. apply H.
Qed.

Lemma removeTags_lacks s : lacks GT s = true -> removeTags s = s.
Proof.
  induction s as [|c s IH]; intros H; [reflexivity|].
  rewrite removeTags_cons, (matchTag_lacks _ H). f_equal. apply IH.
  cbn [lacks forallb] in H. apply andb_true_iff in H. apply H.
Qed.

Lemma startsWith_In p s d : startsWith p s = true -> In d p -> In d s.
Proof.
  revert s. induction p as [|a p IH]; intros s H Hin; [destruct Hin|].
  destruct s as [|b s]; [discriminate|]. cbn [startsWith] in H.
  apply andb_true_iff in H. destruct H as [Hab Hp].
  apply N.eqb_eq in Hab. subst b.
  destruct Hin as [-> | Hin]; [left; reflexivity | right; exact (IH s Hp Hin)].
Qed.

Lemma occurs_lacks needle s c :
  In c needle -> lacks c s = true -> occurs needle s = false.
Proof.
  intros Hc. induction s as [|d s IH]; intros H.
  - cbn [occurs]. rewrite orb_false_r.
    destruct (startsWith needle []) eqn:E; [|reflexivity].
    destruct (startsWith_In _ _ _ E Hc).
  - cbn [occurs]. apply orb_false_iff. split.
    + destruct (startsWith needle (d :: s)) eqn:E; [|reflexivity].
      exfalso. exact (lacks_In c _ c H (startsWith_In _ _ _ E Hc) eq_refl).
    + apply IH. cbn [lacks forallb] in H. apply andb_true_iff in H. apply H.
Qed.

Lemma split_In sep s line d : In line (split sep s) -> In d line -> In d s.
Proof.
  revert line. induction s as [|c s IH]; intros line; cbn [split].
  - intros [<- | []] [].
  - destruct (c =? sep)%N.
    + intros [<- | H] Hd; [destruct Hd | right; exact (IH _ H Hd)].
    + destruct (split sep s) as [|l ls]; cbn [In].
      * intros [<- | []] [<- | []]. left. reflexivity.
      * intros [<- | H] Hd.
        -- destruct Hd as [<- | Hd]; [left; reflexivity|].
           right. apply (IH l); [left; reflexivity | exact Hd].
        -- right. apply (IH line); [right; exact H | exact Hd].
Qed.

Lemma isQuoted_lacks line : lacks GT line = true -> isQuoted line = false.
Proof.
  intros H. unfold isQuoted.
  destruct (trimStart line) as [|c r] eqn:E; [reflexivity|].
  apply N.eqb_neq. apply (lacks_In GT line c H).
  apply trimStart_In. rewrite E. left. reflexivity.
Qed.

Lemma lines_unquoted s :
  lacks GT s = true ->
  forallb (fun l => negb (isQuoted l)) (split LF s) = true.
Proof.
  intros H. apply forallb_forall. intros line Hline.
  apply negb_true_iff, isQuoted_lacks, lacks_of_In. intros d Hd.
  exact (lacks_In GT s d H (split_In LF s line d Hline Hd)).
Qed.

End CleanupFacts.

(** X1: a text in which [>] does not occur is only trimmed. *)
Theorem parseEigenMessage_plain (raw : jsstring) :
  lacks GT raw = true -> parseEigenMessage raw = trim raw.
Proof.
  intros H. pose proof (lacks_trim GT raw H) as Ht.
  unfold parseEigenMessage. destruct (isEmpty (trim raw)); [reflexivity|].
  rewrite withoutPreceding_no_marker.
  2:{ apply (occurs_lacks END_TAG (trim raw) GT); [|exact Ht].
      cbv. tauto. }
  rewrite (removeTags_lacks _ Ht).
  rewrite (map_stripBlockquote_unquoted _ (lines_unquoted _ Ht)).
  rewrite join_split. apply trim_idem.
Qed.

Lemma parseEigenMessage_plain_witness :
  lacks GT (lit "  Sushi Saito, Narisawa <3 ") = true /\
  parseEigenMessage (lit "  Sushi Saito, Narisawa <3 ")
  = lit "Sushi Saito, Narisawa <3".
Proof.
  split; [vm_compute; reflexivity|].
  rewrite (parseEigenMessage_plain (lit "  Sushi Saito, Narisawa <3 "));
    vm_compute; reflexivity.
Defined.

Lemma parseEigenMessage_edges raw : edgesClean (parseEigenMessage raw) = true.
Proof.
  unfold parseEigenMessage.
  destruct (isEmpty (trim raw)); apply trim_edgesClean.
Qed.

(** X2: the cleaned text has no white space at either end. *)
Theorem parseEigenMessage_edgesClean (raw : jsstring) :
  edgesClean (parseEigenMessage raw) = true.
Proof.
  unfold parseEigenMessage.
  destruct (isEmpty (trim raw)) eqn:E.
  - destruct (trim raw); [reflexivity | discriminate E].
  - apply trim_edgesClean.
Qed.

Section TokenFacts.

Lemma tagRest_closes name post :
  lacks GT name = true ->
  tagRest (name ++ PIPE :: GT :: post) = Some post.
Proof.
  induction name as [|c name IH]; intros H.
  - reflexivity.
  - cbn [lacks forallb] in H. apply andb_true_iff in H.
    destruct H as [Hc Hn]. apply negb_true_iff in Hc.
    change ((c :: name) ++ PIPE :: GT :: post)
      with (c :: (name ++ PIPE :: GT :: post)).
    cbn [tagRest]. specialize (IH Hn).
    destruct name as [|d name'].
    + cbn [app] in *. change (PIPE =? GT)%N with false.
      rewrite andb_false_r, Hc. exact IH.
    + cbn [app] in *. cbn [lacks forallb] in Hn.
      apply andb_true_iff in Hn. destruct Hn as [Hd _].
      apply negb_true_iff in Hd. rewrite Hd, andb_false_r, Hc. exact IH.
Qed.

Lemma matchTag_token name post :
  name <> [] -> lacks GT name = true ->
  matchTag (controlToken name ++ post) = Some post.
Proof.
  intros Hne H. destruct name as [|c name]; [congruence|].
  cbn [lacks forallb] in H. apply andb_true_iff in H. destruct H as [Hc Hn].
  unfold controlToken. change (lit "<|") with [LT; PIPE].
  change (lit "|>") with [PIPE; GT].
  rewrite <- !app_assoc. cbn [app matchTag].
  rewrite !N.eqb_refl, Hc. cbn [andb].
  exact (tagRest_closes name post Hn).
Qed.

Lemma matchTag_before_token c pre t :
  hasTagOpen (c :: pre) = false ->
  matchTag (c :: pre ++ LT :: t) = None.
Proof.
  intros H. destruct pre as [|b pre].
  - cbn [app matchTag]. destruct t as [|c0 r]; [reflexivity|].
    change (LT =? PIPE)%N with false. rewrite andb_false_r. reflexivity.
  - cbn [hasTagOpen] in H. apply orb_false_iff in H. destruct H as [H _].
    cbn [app matchTag].
    destruct (pre ++ LT :: t) as [|c0 r]; [reflexivity|].
    rewrite H. reflexivity.
Qed.

Lemma hasTagOpen_lacks s : lacks LT s = true -> hasTagOpen s = false.
Proof.
  induction s as [|a s IH]; [reflexivity|].
  intros H. cbn [lacks forallb] in H. apply andb_true_iff in H.
  destruct H as [Ha Hs]. apply negb_true_iff in Ha.
  cbn [hasTagOpen]. destruct s as [|b s']; [reflexivity|].
  rewrite Ha. cbn [andb orb]. exact (IH Hs).
Qed.

Lemma split_lacks sep l : lacks sep l = true -> split sep l = [l].
Proof.
  induction l as [|c l IH]; [reflexivity|].
  intros H. cbn [lacks forallb] in H. apply andb_true_iff in H.
  destruct H as [Hc Hl]. apply negb_true_iff in Hc.
  cbn [split]. rewrite Hc, (IH Hl). reflexivity.
Qed.

Lemma split_app_sep sep l t :
  lacks sep l = true -> split sep (l ++ sep :: t) = l :: split sep t.
Proof.
  induction l as [|c l IH]; intros H.
  - cbn [app split]. rewrite N.eqb_refl. reflexivity.
  - cbn [lacks forallb] in H. apply andb_true_iff in H.
    destruct H as [Hc Hl]. apply negb_true_iff in Hc.
    cbn [app split]. rewrite Hc, (IH Hl). reflexivity.
Qed.

(** Splitting what was joined gives the pieces back, when no piece holds
    the separator. *)
Lemma split_join sep ls :
  ls <> [] -> forallb (lacks sep) ls = true ->
  split sep (join [sep] ls) = ls.
Proof.
  induction ls as [|l ls IH]; [congruence|]. intros _ H.
  cbn [forallb] in H. apply andb_true_iff in H. destruct H as [Hl Hls].
  destruct ls as [|l' ls'].
  - cbn [join]. exact (split_lacks sep l Hl).
  - change (join [sep] (l :: l' :: ls'))
      with (l ++ sep :: join [sep] (l' :: ls')).
    rewrite (split_app_sep sep l _ Hl). f_equal.
    apply IH; [discriminate | exact Hls].
Qed.

Lemma join_In sep ls d :
  In d (join sep ls) -> In d sep \/ exists l, In l ls /\ In d l.
Proof.
  induction ls as [|l ls IH]; [intros []|].
  destruct ls as [|l' ls'].
  - cbn [join]. intros H. right. exists l. split; [left; reflexivity | exact H].
  - change (join sep (l :: l' :: ls'))
      with (l ++ sep ++ join sep (l' :: ls')).
    rewrite !in_app_iff. intros [H | [H | H]].
    + right. exists l. split; [left; reflexivity | exact H].
    + left. exact H.
    + destruct (IH H) as [Hs | (k & Hk & Hd)]; [left; exact Hs|].
      right. exists k. split; [right; exact Hk | exact Hd].
Qed.

Lemma stripBlockquote_quoteLine l : stripBlockquote (quoteLine l) = l.
Proof. reflexivity. Qed.

End TokenFacts.

(** X3: a control token that follows text in which no [<|] occurs is
    removed, and that text is kept as it is. *)
Theorem removeTags_token (pre name post : jsstring) :
  hasTagOpen pre = false ->
  name <> [] ->
  lacks GT name = true ->
  removeTags (pre ++ controlToken name ++ post) = pre ++ removeTags post.
Proof.
  intros Hpre Hne Hname. induction pre as [|c pre IH].
  - cbn [app].
    destruct (controlToken name ++ post) as [|a t] eqn:E.
    + unfold controlToken in E. discriminate E.
    + rewrite removeTags_cons, <- E, (matchTag_token name post Hne Hname).
      reflexivity.
  - change ((c :: pre) ++ controlToken name ++ post)
      with (c :: pre ++ controlToken name ++ post).
    rewrite removeTags_cons.
    replace (matchTag (c :: pre ++ controlToken name ++ post)) with
      (@None jsstring).
    + cbn [app]. f_equal. apply IH. exact (hasTagOpen_tail _ _ Hpre).
    + symmetry. unfold controlToken. change (lit "<|") with [LT; PIPE].
      rewrite <- !app_assoc. cbn [app].
      exact (matchTag_before_token c pre _ Hpre).
Qed.

Lemma removeTags_token_witness :
  hasTagOpen (lit "Hi ") = false /\
  removeTags (lit "Hi " ++ controlToken (lit "start") ++ lit "there")
  = lit "Hi there".
Proof.
  split; [reflexivity|].
  rewrite (removeTags_token (lit "Hi ") (lit "start") (lit "there"));
    [reflexivity | reflexivity | discriminate | reflexivity].
Defined.

(** X4: a trimmed text made of lines that each carry a blockquote marker
    in front, and in which [<] does not occur, is cleaned to the lines
    without their markers. *)
Theorem parseEigenMessage_unquotes (lines : list jsstring) :
  lines <> [] ->
  forallb (lacks LF) lines = true ->
  forallb (lacks LT) lines = true ->
  trim (join [LF] (map quoteLine lines)) = join [LF] (map quoteLine lines) ->
  parseEigenMessage (join [LF] (map quoteLine lines))
  = trim (join [LF] lines).
Proof.
  intros Hne Hlf Hlt Htrim.
  set (raw := join [LF] (map quoteLine lines)) in *.
  assert (Hraw : lacks LT raw = true).
  { apply lacks_of_In. intros d Hd. apply join_In in Hd.
    destruct Hd as [[<- | []] | (l & Hl & Hd)]; [discriminate|].
    apply in_map_iff in Hl. destruct Hl as (k & <- & Hk).
    unfold quoteLine in Hd. apply in_app_iff in Hd.
    destruct Hd as [[<- | [<- | []]] | Hd]; try discriminate.
    rewrite forallb_forall in Hlt. exact (lacks_In LT k d (Hlt k Hk) Hd). }
  apply hasTagOpen_lacks in Hraw.
  unfold parseEigenMessage. rewrite Htrim.
  assert (Hnonempty : isEmpty raw = false).
  { unfold raw. destruct lines as [|l ls]; [congruence|].
    destruct ls; reflexivity. }
  rewrite Hnonempty, (withoutPreceding_absent _ Hraw),
    (removeTags_absent _ Hraw).
  unfold raw. rewrite split_join.
  - rewrite map_map.
    rewrite (map_ext _ (fun l => l) stripBlockquote_quoteLine), map_id.
    reflexivity.
  - destruct lines; [congruence | discriminate].
  - rewrite forallb_forall in *. intros q Hq.
    apply in_map_iff in Hq. destruct Hq as (k & <- & Hk).
    unfold quoteLine. rewrite lacks_app, (Hlf k Hk). reflexivity.
Qed.

Lemma parseEigenMessage_unquotes_witness :
  parseEigenMessage
    (join [LF] (map quoteLine [lit "Sushi > ramen"; lit ""; lit "Tokyo"]))
  = trim (join [LF] [lit "Sushi > ramen"; lit ""; lit "Tokyo"]).
Proof.
  apply (parseEigenMessage_unquotes
           [lit "Sushi > ramen"; lit ""; lit "Tokyo"]);
    [discriminate | reflexivity | reflexivity | vm_compute; reflexivity].
Defined.

(** ** The handler: what it issues and what it answers *)

Section HandlerFacts.

Lemma POST_valid K parsed w :
  hasPrompt parsed = true ->
  missing (OPENAI_API_KEY (env w)) = false ->
  missing (EIGENAI_API_KEY (env w)) = false ->
  exists b q k1 k2,
    parsed = Some b /\ prompt b = Some (JString q) /\ trim q <> [] /\
    OPENAI_API_KEY (env w) = Some k1 /\ EIGENAI_API_KEY (env w) = Some k2 /\
    POST K parsed w = runComparison K b (trim q) k1 k2 w.
Proof.
  intros Hp H1 H2.
  destruct (hasPrompt_text parsed Hp) as (b & q & -> & Hq & Hw).
  pose proof (trim_not_blank q Hw) as Hne.
  destruct (OPENAI_API_KEY (env w)) as [[|c1 k1]|] eqn:E1;
    try discriminate H1.
  destruct (EIGENAI_API_KEY (env w)) as [[|c2 k2]|] eqn:E2;
    try discriminate H2.
  exists b, q, (c1 :: k1), (c2 :: k2). repeat split; try assumption.
  unfold POST. cbn [from_option id]. rewrite Hq, E1, E2. cbn [trimmedPrompt].
  destruct (trim q) as [|c r]; [congruence | reflexivity].
Qed.

Lemma runComparison_issued K b p k1 k2 w :
  issued (runComparison K b p k1 k2 w)
  = replicate (runCount K (Some b)) (openaiCallOf K b p k1 w)
    ++ replicate (runCount K (Some b))
         (eigenCallOf K b p k2 w (chosenSeed b w))
    ++ replicate (runCount K (Some b))
         (eigenCallOf K b p k2 w (ofZ (uuidToSeed (randomUUID w)))).
Proof.
  unfold runComparison, runCount. cbn [from_option id].
  destruct (effectiveRuns K (runs b)) as [t|v]; [reflexivity|].
  destruct (arrayLength v) as [n|]; [|reflexivity].
  cbn [from_option id].
  destruct (joint (fanout n w)) as [[e|[[x y] z]]|]; reflexivity.
Qed.

(** The calls at an index of three blocks of equal length. *)
Lemma lookup_blocks (n i : nat) (a b c call : UpstreamRequest) :
  (replicate n a ++ replicate n b ++ replicate n c) !! i = Some call ->
  call = if (i <? n)%nat then a else if (i <? 2 * n)%nat then b else c.
Proof.
  intros H.
  destruct (Nat.ltb_spec i n) as [Hi | Hi].
  - rewrite lookup_app_l in H by (rewrite length_replicate; exact Hi).
    apply lookup_replicate in H. tauto.
  - rewrite lookup_app_r in H by (rewrite length_replicate; exact Hi).
    rewrite length_replicate in H.
    destruct (Nat.ltb_spec i (2 * n)) as [Hj | Hj].
    + rewrite lookup_app_l in H by (rewrite length_replicate; lia).
      apply lookup_replicate in H. tauto.
    + rewrite lookup_app_r in H by (rewrite length_replicate; lia).
      apply lookup_replicate in H. tauto.
Qed.

(** What a response with status 200 is made of. *)
Lemma POST_success_full K parsed w p o e r :
  response (POST K parsed w)
  = Some {| status := 200; body := Comparison p o e r |} ->
  exists b q k1 k2 v x y z,
    parsed = Some b /\ prompt b = Some (JString q) /\ p = trim q /\ p <> [] /\
    OPENAI_API_KEY (env w) = Some k1 /\ k1 <> [] /\
    EIGENAI_API_KEY (env w) = Some k2 /\ k2 <> [] /\
    POST K parsed w = runComparison K b p k1 k2 w /\
    effectiveRuns K (runs b) = inr v /\
    arrayLength v = Some (runCount K parsed) /\
    joint (fanout (runCount K parsed) w) = Some (inr (x, y, z)) /\
    o = {| model := OPENAI_MODEL K; seed := None;
           group_runs := v; responses := x; seedUuid := None |} /\
    e = {| model := EIGENAI_MODEL K; seed := Some (chosenSeed b w);
           group_runs := v; responses := y; seedUuid := None |} /\
    r = {| model := EIGENAI_MODEL K;
           seed := Some (ofZ (uuidToSeed (randomUUID w)));
           group_runs := v; responses := z;
           seedUuid := Some (randomUUID w) |}.
Proof.
  intros H.
  assert (HP : exists b q k1 k2,
             parsed = Some b /\ prompt b = Some (JString q) /\ trim q <> [] /\
             OPENAI_API_KEY (env w) = Some k1 /\ k1 <> [] /\
             EIGENAI_API_KEY (env w) = Some k2 /\ k2 <> [] /\
             POST K parsed w = runComparison K b (trim q) k1 k2 w).
  { unfold POST in *.
    destruct parsed as [b|]; cbn [from_option id] in *; [|discriminate].
    destruct (prompt b) as [[| | | q | |]|] eqn:Eq; cbn [trimmedPrompt] in *;
      try discriminate.
    destruct (trim q) as [|c t] eqn:Hq; [discriminate|].
    destruct (OPENAI_API_KEY (env w)) as [[|c1 k1]|]; try discriminate.
    destruct (EIGENAI_API_KEY (env w)) as [[|c2 k2]|]; try discriminate.
    exists b, q, (c1 :: k1), (c2 :: k2). rewrite Hq.
    repeat split; try reflexivity; try discriminate; assumption. }
  destruct HP as (b & q & k1 & k2 & -> & Hq & Hne & E1 & N1 & E2 & N2 & HP).
  exists b, q, k1, k2.
  assert (Hrest : p = trim q /\ exists v x y z,
    effectiveRuns K (runs b) = inr v /\
    arrayLength v = Some (runCount K (Some b)) /\
    joint (fanout (runCount K (Some b)) w) = Some (inr (x, y, z)) /\
    o = {| model := OPENAI_MODEL K; seed := None;
           group_runs := v; responses := x; seedUuid := None |} /\
    e = {| model := EIGENAI_MODEL K; seed := Some (chosenSeed b w);
           group_runs := v; responses := y; seedUuid := None |} /\
    r = {| model := EIGENAI_MODEL K;
           seed := Some (ofZ (uuidToSeed (randomUUID w)));
           group_runs := v; responses := z;
           seedUuid := Some (randomUUID w) |}).
  { rewrite HP in H. clear HP. unfold runComparison, runCount in *.
    cbn [from_option id] in *.
    destruct (effectiveRuns K (runs b)) as [t|v]; [discriminate|].
    destruct (arrayLength v) as [n|] eqn:Ha; [|discriminate].
    cbn [from_option id] in *.
    destruct (joint (fanout n w)) as [[f|[[x y] z]]|]; try discriminate.
    cbn [response] in H. injection H as <- <- <- <-.
    split; [reflexivity|]. exists v, x, y, z. repeat split. exact Ha. }
  destruct Hrest as (-> & v & x & y & z & Hv & Ha & Hj & Ho & He & Hr).
  exists v, x, y, z. repeat split; assumption.
Qed.

End HandlerFacts.

(** X5: whatever the upstream calls come to, a request with a prompt and
    both keys issues three runs per run count, and the call at each index
    is the call of its block: first the runs of the first provider, with
    the 20 s time-out and no seed, then the runs of the second provider with
    the chosen seed of lines 73-79, then its runs with the seed of the
    UUID, both without a time-out. *)
Theorem POST_fans_out (K : Constants) (parsed : option CompareRequest)
    (w : World) :
  hasPrompt parsed = true ->
  missing (OPENAI_API_KEY (env w)) = false ->
  missing (EIGENAI_API_KEY (env w)) = false ->
  List.length (issued (POST K parsed w)) = (3 * runCount K parsed)%nat /\
  forall i call,
    issued (POST K parsed w) !! i = Some call ->
    if (i <? runCount K parsed)%nat then
      provider call = OpenAI /\ timeout_ms call = Some 20000 /\
      req_seed call = None
    else if (i <? 2 * runCount K parsed)%nat then
      provider call = EigenAI /\ timeout_ms call = None /\
      req_seed call
      = Some (eigenSeedOf (eigenSeed (default emptyRequest parsed))
                (NEXT_PUBLIC_EIGENAI_DEFAULT_SEED (env w)))
    else
      provider call = EigenAI /\ timeout_ms call = None /\
      req_seed call = Some (ofZ (uuidToSeed (randomUUID w))).
Proof.
  intros Hp H1 H2.
  destruct (POST_valid K parsed w Hp H1 H2)
    as (b & q & k1 & k2 & -> & _ & _ & _ & _ & ->).
  rewrite runComparison_issued. split.
  - rewrite !length_app, !length_replicate. lia.
  - intros i call Hcall. apply lookup_blocks in Hcall. subst call.
    destruct (i <? runCount K (Some b))%nat; [repeat split|].
    destruct (i <? 2 * runCount K (Some b))%nat; repeat split.
Qed.

Lemma POST_fans_out_witness :
  List.length (issued (POST exampleConstants (Some exampleRequest)
                         failingWorld)) = 6%nat /\
  forall call,
    issued (POST exampleConstants (Some exampleRequest) failingWorld)
    !! 3%nat = Some call ->
    provider call = EigenAI /\ timeout_ms call = None /\
    req_seed call = Some (ofZ 42).
Proof.
  destruct (POST_fans_out exampleConstants (Some exampleRequest) failingWorld)
    as (Hlen & Hcalls); [reflexivity | reflexivity | reflexivity |].
  split; [exact Hlen|].
  intros call Hcall. exact (Hcalls 3%nat call Hcall).
Defined.

(** X6: every upstream call carries the trimmed prompt of the request and
    goes to the endpoint of its provider with the key and the model of that
    provider: the key of one provider is never sent to the endpoint of the
    other. *)
Theorem issued_calls_keys (K : Constants) (parsed : option CompareRequest)
    (w : World) (call : UpstreamRequest) :
  In call (issued (POST K parsed w)) ->
  (exists q,
     prompt (default emptyRequest parsed) = Some (JString q) /\
     req_prompt call = trim q) /\
  ((provider call = OpenAI /\
    endpoint call = endpointOf (OPENAI_API_URL (env w)) OPENAI_DEFAULT_URL /\
    OPENAI_API_KEY (env w) = Some (apiKey call) /\
    req_model call = OPENAI_MODEL K)
   \/
   (provider call = EigenAI /\
    endpoint call = endpointOf (EIGENAI_API_URL (env w)) EIGEN_DEFAULT_URL /\
    EIGENAI_API_KEY (env w) = Some (apiKey call) /\
    req_model call = EIGENAI_MODEL K)).
Proof.
  intros Hin.
  destruct (hasPrompt parsed) eqn:Hp.
  2:{ destruct (blankPrompt parsed) eqn:Hb.
      - rewrite (POST_blank K parsed w Hb) in Hin. destruct Hin.
      - rewrite (POST_throws_prompt K parsed w Hb Hp) in Hin. destruct Hin. }
  destruct (hasPrompt_text parsed Hp) as (b' & q & Hb' & Hq & _).
  destruct (POST_prompt K parsed w Hp) as (b & p & -> & Ht & _ & HP).
  injection Hb' as <-.
  rewrite HP in Hin. cbn [from_option id].
  rewrite Hq in Ht. cbn [trimmedPrompt] in Ht. injection Ht as <-.
  split; [exists q; split; [exact Hq|] |];
    (destruct (OPENAI_API_KEY (env w)) as [[|c1 k1]|]; try destruct Hin;
     destruct (EIGENAI_API_KEY (env w)) as [[|c2 k2]|]; try destruct Hin;
     rewrite runComparison_issued in Hin;
     rewrite !in_app_iff in Hin;
     destruct Hin as [H | [H | H]];
     apply list_elem_of_In, elem_of_replicate in H; destruct H as [-> _];
     cbn; auto).
Qed.

Lemma issued_calls_keys_witness :
  In (openaiCallOf exampleConstants exampleRequest (lit "hello") (lit "sk-a")
        exampleWorld)
     (issued (POST exampleConstants (Some exampleRequest) exampleWorld)) /\
  (provider (openaiCallOf exampleConstants exampleRequest (lit "hello")
               (lit "sk-a") exampleWorld) = OpenAI /\
   endpoint (openaiCallOf exampleConstants exampleRequest (lit "hello")
               (lit "sk-a") exampleWorld)
   = lit "https://api.openai.com/v1/chat/completions" /\
   OPENAI_API_KEY (env exampleWorld) = Some (lit "sk-a")).
Proof.
  assert (Hin : In (openaiCallOf exampleConstants exampleRequest (lit "hello")
                      (lit "sk-a") exampleWorld)
                   (issued (POST exampleConstants (Some exampleRequest)
                              exampleWorld)))
    by (vm_compute; left; reflexivity).
  split; [exact Hin|].
  destruct (issued_calls_keys exampleConstants (Some exampleRequest)
              exampleWorld _ Hin)
    as (_ & [(Hp & He & Hk & _) | (Hp & _)]).
  - split; [exact Hp|]. split; [exact He | exact Hk].
  - discriminate Hp.
Defined.

Section SettlingFacts.

Variable n : nat.
Variable fetched : CallId -> FetchOutcome.

Local Abbreviation result := (resultOf fetched).
Local Abbreviation step := (complete n fetched).

Lemma start_not_filled g i : ~ filled (start n) g i.
Proof.
  intros [v Hv]. cbn in Hv. apply lookup_replicate in Hv.
  destruct Hv as [Hv _]. discriminate Hv.
Qed.

Lemma step_filled_inv f c g i :
  filled (step f c) g i -> filled f g i \/ c = (g, i).
Proof.
  unfold complete, filled.
  destruct (snd c <? n)%nat; [|auto]. cbn [rejoin group].
  destruct (GroupId_eqb g (fst c)) eqn:E; [|auto].
  apply GroupId_eqb_eq in E.
  unfold settles. destruct (settled (group f g)); [auto|].
  destruct (runOf _ _) as [e|v']; [auto|]. cbn [slots].
  intros [v Hv]. apply list_lookup_insert_Some in Hv.
  destruct Hv as [(Hi & _ & _) | (_ & Hv)]; [|eauto].
  right. destruct c as [g' i']. cbn [fst snd] in *. congruence.
Qed.

Lemma fold_filled_inv cs f g i :
  filled (fold_left step cs f) g i -> filled f g i \/ In (g, i) cs.
Proof.
  revert f. induction cs as [|c cs IH]; intros f H; [auto|].
  cbn [fold_left] in H. destruct (IH _ H) as [H' | H'].
  - destruct (step_filled_inv f c g i H') as [Hf | ->];
      [auto | right; left; reflexivity].
  - right. right. exact H'.
Qed.

Lemma sound_fulfilled_slots g p vs i :
  sound n fetched g p -> settled p = Some (inr vs) -> (i < n)%nat ->
  exists v, slots p !! i = Some (Some v) /\ result g i = inr v.
Proof.
  intros Hp Hs Hi. pose proof Hp as (Hlen & Hslots & Hset).
  destruct Hset as [Hset | (e' & j & Hset & _)]; [|congruence].
  rewrite Hset in Hs. apply fulfilment_inr, mapM_Some in Hs.
  destruct (lookup_lt_is_Some_2 (slots p) i) as [slot Hslot]; [lia|].
  destruct (Forall2_lookup_l _ _ _ _ _ Hs Hslot) as (v & _ & ->).
  exists v. split; [exact Hslot | exact (Hslots _ _ Hslot)].
Qed.

(** A joint promise fulfils only once every run has settled, none being
    rejected. *)
Lemma fulfilled_all_settled cs x y z g i :
  joint (fold_left step cs (start n)) = Some (inr (x, y, z)) ->
  (i < n)%nat ->
  In (g, i) cs /\ exists v, result g i = inr v.
Proof.
  intros Hj Hi.
  pose proof (consistent_fold n fetched cs _ (consistent_start n fetched))
    as (Hg & Hjs & _).
  rewrite Hj in Hjs. cbn in Hjs. destruct Hjs as (Hx & Hy & Hz).
  assert (Hs : exists vs,
             settled (group (fold_left step cs (start n)) g) = Some (inr vs))
    by (destruct g; eauto).
  destruct Hs as [vs Hs].
  destruct (sound_fulfilled_slots g _ vs i (Hg g) Hs Hi) as (v & Hv & Hr).
  split; [|eauto].
  destruct (fold_filled_inv cs (start n) g i) as [H | H]; [eexists; eauto | |].
  - now apply start_not_filled in H.
  - exact H.
Qed.

(** Without a rejection among the runs that settle, the joint promise is
    not rejected. *)
Lemma fold_not_rejected cs f :
  consistent n fetched f ->
  (forall e, joint f <> Some (inl e)) ->
  firstRejection n fetched cs = None ->
  forall e, joint (fold_left step cs f) <> Some (inl e).
Proof.
  revert f. induction cs as [|c cs IH]; intros f Hf Hj Hnone; [exact Hj|].
  cbn [firstRejection] in Hnone. cbn [fold_left].
  destruct (snd c <? n)%nat eqn:Hc.
  - pose proof Hc as Hlt. apply Nat.ltb_lt in Hlt.
    destruct (result (fst c) (snd c)) as [e'|v] eqn:Hr; [discriminate|].
    apply IH; [now apply consistent_step | | exact Hnone].
    destruct (joint f) as [j|] eqn:Ej.
    + intros e. rewrite (step_sticky n fetched f c j Ej). exact (Hj e).
    + intros e. exact (step_fulfils_not_rejected n fetched f c v e Hf Ej Hlt Hr).
  - rewrite (step_invalid n fetched f c Hc). now apply IH.
Qed.

End SettlingFacts.

Section AnswerFacts.

Lemma runOf_success p o r :
  runOf p o = inr r ->
  upstreamFails o = false /\
  exists st text data,
    o = Responds st text (Some data) /\ ok st = true /\
    message r =
      match p with
      | OpenAI => default [] (extractMessage data)
      | EigenAI => parseEigenMessage (default [] (extractMessage data))
      end.
Proof.
  destruct o as [e | st text [data|]]; cbn [runOf upstreamFails];
    try discriminate.
  - destruct (ok st) eqn:Hok; cbn [negb]; [|discriminate].
    intros [= <-]. split; [reflexivity|]. exists st, text, data.
    repeat split. exact Hok.
  - destruct (ok st); discriminate.
Qed.

Lemma extractMessage_edgesClean data :
  edgesClean (default [] (extractMessage data)) = true.
Proof.
  unfold extractMessage.
  destruct (choices data) as [[|choice rest]|]; try reflexivity.
  destruct (choice_message choice) as [m|]; [|reflexivity].
  destruct (content m) as [t|]; [|reflexivity].
  cbn [option_map from_option id]. apply trim_edgesClean.
Qed.

End AnswerFacts.

(** X7: a run gives a result only on a response with a 2xx status and a
    JSON body, and the message of the result has no white space at either
    end, for both providers. *)
Theorem run_message_edgesClean (p : Provider) (o : FetchOutcome)
    (r : RunResult) :
  runOf p o = inr r ->
  upstreamFails o = false /\ edgesClean (message r) = true.
Proof.
  intros H. destruct (runOf_success p o r H)
    as (Hok & st & text & data & _ & _ & Hm).
  split; [exact Hok|]. rewrite Hm. destruct p.
  - apply extractMessage_edgesClean.
  - apply parseEigenMessage_edges.
Qed.

Lemma run_message_edgesClean_witness :
  exists r,
    runOf EigenAI (exampleReply (G_eigen, 1%nat)) = inr r /\
    message r = lit "Tokyo 1" /\ edgesClean (message r) = true.
Proof.
  eexists. split; [vm_compute; reflexivity|]. split; [reflexivity|].
  apply (run_message_edgesClean EigenAI (exampleReply (G_eigen, 1%nat))).
  vm_compute. reflexivity.
Defined.

(** X8: in a response with status 200 the seeds reported are the seeds that
    were sent: the call at each index was issued with the seed that the
    group of its block reports, none for the first group; the seed of the
    last group is the seed of the UUID reported beside it and lies between
    0 and 2^31 - 1, and a finite [eigenSeed] of the request is reported
    floored. *)
Theorem reported_seeds (K : Constants) (parsed : option CompareRequest)
    (w : World) (p : jsstring) (o e r : Group) :
  response (POST K parsed w)
  = Some {| status := 200; body := Comparison p o e r |} ->
  (seed o = None /\ seedUuid o = None /\ seedUuid e = None) /\
  (seedUuid r = Some (randomUUID w) /\
   seed r = Some (ofZ (uuidToSeed (randomUUID w))) /\
   0 <= uuidToSeed (randomUUID w) <= 2 ^ 31 - 1) /\
  (forall q,
     eigenSeed (default emptyRequest parsed) = Some (JNumber (JFin q)) ->
     seed e = Some (ofZ (Qfloor q))) /\
  (List.length (issued (POST K parsed w)) = (3 * runCount K parsed)%nat /\
   forall i call,
     issued (POST K parsed w) !! i = Some call ->
     req_seed call =
       if (i <? runCount K parsed)%nat then seed o
       else if (i <? 2 * runCount K parsed)%nat then seed e
       else seed r).
Proof.
  intros H.
  destruct (POST_success_full K parsed w p o e r H)
    as (b & q & k1 & k2 & v & x & y & z & -> & _ & _ & _ & _ & _ & _ & _ & HP
        & _ & _ & _ & -> & -> & ->).
  cbn [seed seedUuid from_option id].
  split; [repeat split|]. split; [repeat split; apply uuidToSeed_range|].
  split.
  - intros q' Hq'. unfold chosenSeed, eigenSeedOf. rewrite Hq'. reflexivity.
  - rewrite HP, runComparison_issued. split.
    + rewrite !length_app, !length_replicate. lia.
    + intros i call Hcall. apply lookup_blocks in Hcall. subst call.
      destruct (i <? runCount K (Some b))%nat; [reflexivity|].
      destruct (i <? 2 * runCount K (Some b))%nat; reflexivity.
Qed.

Lemma reported_seeds_witness :
  exists p o e r,
    response (POST exampleConstants (Some exampleRequest) exampleWorld)
    = Some {| status := 200; body := Comparison p o e r |} /\
    seed r = Some (ofZ (uuidToSeed (lit "9b1deb4d-3b7d-4bad-9bdd-2b0d7b3dcb6d")))
    /\ seedUuid r = Some (lit "9b1deb4d-3b7d-4bad-9bdd-2b0d7b3dcb6d")
    /\ forall call,
         issued (POST exampleConstants (Some exampleRequest) exampleWorld)
         !! 2%nat = Some call ->
         req_seed call = seed e.
Proof.
  do 4 eexists. split; [vm_compute; reflexivity|].
  destruct (reported_seeds exampleConstants (Some exampleRequest)
              exampleWorld _ _ _ _ eq_refl)
    as (_ & (Hu & Hs & _) & _ & _ & Hcalls).
  split; [exact Hs|]. split; [exact Hu|].
  intros call Hcall. exact (Hcalls 2%nat call Hcall).
Defined.

(** X9: the handler throws, and gives no response of its own, exactly when
    the prompt is neither missing nor a string or, with a prompt and both
    keys, the run count is an object that cannot be converted; it then has
    issued no call.  Every response it gives has status 400 with the text
    that the prompt is required, exactly when the prompt is blank, or
    status 500 with one of the three other fixed texts, or status 200 with
    a comparison; no text of an upstream error reaches the caller. *)
Theorem POST_answers (K : Constants) (parsed : option CompareRequest)
    (w : World) :
  (thrown (POST K parsed w) = Some TypeError <->
   (blankPrompt parsed = false /\ hasPrompt parsed = false) \/
   (hasPrompt parsed = true /\
    missing (OPENAI_API_KEY (env w)) = false /\
    missing (EIGENAI_API_KEY (env w)) = false /\
    runsConvert parsed = false)) /\
  (thrown (POST K parsed w) = Some TypeError ->
   response (POST K parsed w) = None /\ issued (POST K parsed w) = []) /\
  (forall resp,
     response (POST K parsed w) = Some resp ->
     (blankPrompt parsed = true /\
      resp = {| status := 400;
                body := ErrorBody (lit "Prompt is required.") |})
     \/
     (hasPrompt parsed = true /\ status resp = 500 /\
      exists msg, body resp = ErrorBody msg /\ In msg (tl errorTexts))
     \/
     (hasPrompt parsed = true /\ status resp = 200 /\
      exists p o e r, body resp = Comparison p o e r)).
Proof.
  destruct (blankPrompt parsed) eqn:Hb.
  { rewrite (POST_blank K parsed w Hb).
    assert (Hh : hasPrompt parsed = false).
    { destruct (hasPrompt parsed) eqn:Hh; [|reflexivity].
      apply hasPrompt_not_blank in Hh. congruence. }
    rewrite Hh. split; [|split].
    - split; [discriminate | intros [[H _] | [H _]]; discriminate H].
    - discriminate.
    - intros resp [= <-]. left. split; reflexivity. }
  destruct (hasPrompt parsed) eqn:Hp.
  2:{ rewrite (POST_throws_prompt K parsed w Hb Hp). split; [|split].
      - split; [intros _; left; split; reflexivity | reflexivity].
      - intros _. split; reflexivity.
      - discriminate. }
  destruct (POST_prompt K parsed w Hp) as (b & p & -> & _ & _ & HP).
  rewrite HP. clear HP.
  assert (Herr : forall msg,
            In (lit msg) (tl errorTexts) ->
            forall resp,
              response (answer 500 msg) = Some resp ->
              (false = true /\
               resp = {| status := 400;
                         body := ErrorBody (lit "Prompt is required.") |})
              \/
              (true = true /\ status resp = 500 /\
               exists m, body resp = ErrorBody m /\ In m (tl errorTexts))
              \/
              (true = true /\ status resp = 200 /\
               exists p o e r, body resp = Comparison p o e r)).
  { intros msg Hmsg resp [= <-]. right. left. split; [reflexivity|].
    split; [reflexivity|]. exists (lit msg). split; [reflexivity | exact Hmsg]. }
  assert (Hno : forall msg,
            (thrown (answer 500 msg) = Some TypeError <-> False) /\
            (thrown (answer 500 msg) = Some TypeError ->
             response (answer 500 msg) = None /\ issued (answer 500 msg) = []))
    by (intros msg; split; [split; [discriminate | tauto] | discriminate]).
  unfold runsConvert. cbn [from_option id].
  destruct (OPENAI_API_KEY (env w)) as [[|c1 k1]|]; cbn [missing isEmpty].
  1, 3: (split; [|split; [apply Hno | apply Herr; cbn; tauto]];
         split; [discriminate | intros [[_ H] | (_ & H & _)]; discriminate H]).
  destruct (EIGENAI_API_KEY (env w)) as [[|c2 k2]|]; cbn [missing isEmpty].
  1, 3: (split; [|split; [apply Hno | apply Herr; cbn; tauto]];
         split; [discriminate | intros [[_ H] | (_ & _ & H & _)]; discriminate H]).
  unfold runComparison, effectiveRuns.
  destruct (runs b) as [v|]; cbn [negb].
  2:{ cbv beta iota zeta.
      destruct (arrayLength _) as [n|];
        [destruct (joint (fanout n w)) as [[f|[[x y] z]]|]|];
        cbn [thrown response issued];
        (split; [split; [discriminate
                        | intros [[_ H] | (_ & _ & _ & H)]; discriminate H]|]);
        (split; [discriminate|]); intros resp; try discriminate;
        intros [= <-]; right;
        try (left; split; [reflexivity|]; split; [reflexivity|];
             eexists; split; [reflexivity|]; cbn; tauto);
        right; split; [reflexivity|]; split; [reflexivity|];
        do 4 eexists; reflexivity. }
  assert (Hv : (exists x, match v with
                          | JNull => inr (ofZ 4)
                          | _ => ToNumber v
                          end = @inr Uncaught _ x) /\ noPrimitive v = false
               \/ match v with
                  | JNull => inr (ofZ 4)
                  | _ => ToNumber v
                  end = inl TypeError /\ noPrimitive v = true).
  { destruct v; cbn [ToNumber noPrimitive]; try (left; split; eauto; fail);
      match goal with
      | |- context [if ?c then _ else _] =>
          destruct c; [right | left]; split; eauto
      end. }
  destruct Hv as [([x ->] & ->) | [-> ->]]; cbn [negb].
  2:{ cbv beta iota. cbn [throws thrown response issued].
      split; [|split]; [|intros _; split; reflexivity | discriminate].
      split; [intros _; right; repeat split | reflexivity]. }
  cbv beta iota zeta.
  destruct (arrayLength _) as [n|];
    [destruct (joint (fanout n w)) as [[f|[[xs ys] zs]]|]|];
    cbn [thrown response issued];
    (split; [split; [discriminate
                    | intros [[_ H] | (_ & _ & _ & H)]; discriminate H]|]);
    (split; [discriminate|]); intros resp; try discriminate;
    intros [= <-]; right;
    try (left; split; [reflexivity|]; split; [reflexivity|];
         eexists; split; [reflexivity|]; cbn; tauto);
    right; split; [reflexivity|]; split; [reflexivity|];
    do 4 eexists; reflexivity.
Qed.

Lemma POST_answers_witness :
  thrown (POST exampleConstants
            (Some {| prompt := Some (JNumber (JFin 5)); runs := None;
                     eigenSeed := None; openaiMaxTokens := None;
                     eigenMaxTokens := None |}) exampleWorld)
  = Some TypeError /\
  response (POST exampleConstants
              (Some {| prompt := Some (JNumber (JFin 5)); runs := None;
                       eigenSeed := None; openaiMaxTokens := None;
                       eigenMaxTokens := None |}) exampleWorld) = None.
Proof.
  destruct (POST_answers exampleConstants
              (Some {| prompt := Some (JNumber (JFin 5)); runs := None;
                       eigenSeed := None; openaiMaxTokens := None;
                       eigenMaxTokens := None |}) exampleWorld)
    as (Hiff & Hnone & _).
  assert (Ht : thrown (POST exampleConstants
                         (Some {| prompt := Some (JNumber (JFin 5));
                                  runs := None; eigenSeed := None;
                                  openaiMaxTokens := None;
                                  eigenMaxTokens := None |}) exampleWorld)
               = Some TypeError)
    by (apply Hiff; left; split; reflexivity).
  split; [exact Ht | exact (proj1 (Hnone Ht))].
Defined.

(** X10: a response with status 200 is only given once every run that was
    started has settled, none of them having failed upstream. *)
Theorem success_needs_all_runs (K : Constants)
    (parsed : option CompareRequest) (w : World)
    (p : jsstring) (o e r : Group) (g : GroupId) (i : nat) :
  response (POST K parsed w)
  = Some {| status := 200; body := Comparison p o e r |} ->
  (i < runCount K parsed)%nat ->
  In (g, i) (completions w) /\ upstreamFails (fetched w (g, i)) = false.
Proof.
  intros H Hi.
  destruct (POST_success_full K parsed w p o e r H)
    as (b & q & k1 & k2 & v & x & y & z & _ & _ & _ & _ & _ & _ & _ & _ & _
        & _ & _ & Hj & _).
  destruct (fulfilled_all_settled _ (fetched w) (completions w) x y z g i Hj Hi)
    as (Hin & v' & Hv).
  split; [exact Hin|].
  exact (proj1 (runOf_success _ _ _ Hv)).
Qed.

Lemma success_needs_all_runs_witness :
  In (G_eigen, 1%nat) (completions exampleWorld) /\
  upstreamFails (fetched exampleWorld (G_eigen, 1%nat)) = false.
Proof.
  assert (H : exists p o e r,
    response (POST exampleConstants (Some exampleRequest) exampleWorld)
    = Some {| status := 200; body := Comparison p o e r |})
    by (do 4 eexists; vm_compute; reflexivity).
  destruct H as (p & o & e & r & H).
  apply (success_needs_all_runs exampleConstants (Some exampleRequest)
           exampleWorld p o e r G_eigen 1%nat H).
  vm_compute. lia.
Defined.

(** X11: as long as a run that was started has not settled and no run that
    has settled was rejected, the handler gives no response: it answers
    neither with what the other runs returned nor with an error. *)
Theorem POST_waits (K : Constants) (parsed : option CompareRequest)
    (w : World) (g : GroupId) (i : nat) :
  hasPrompt parsed = true ->
  missing (OPENAI_API_KEY (env w)) = false ->
  missing (EIGENAI_API_KEY (env w)) = false ->
  (i < runCount K parsed)%nat ->
  ~ In (g, i) (completions w) ->
  firstRejection (runCount K parsed) (fetched w) (completions w) = None ->
  response (POST K parsed w) = None /\ logged (POST K parsed w) = None.
Proof.
  intros Hp H1 H2 Hi Hnot Hnone.
  destruct (POST_valid K parsed w Hp H1 H2)
    as (b & q & k1 & k2 & -> & _ & _ & _ & _ & ->).
  destruct (runCount_positive K b _ Hi) as (x & Hx & Ha).
  set (n := runCount K (Some b)) in *.
  unfold runComparison. rewrite Hx, Ha.
  destruct (joint (fanout n w)) as [[f|[[xs ys] zs]]|] eqn:Hj.
  - exfalso. revert Hj. unfold fanout.
    apply fold_not_rejected; [apply consistent_start | | exact Hnone].
    intros f'. unfold start, rejoin. cbn [joint].
    destruct n; [lia | discriminate].
  - exfalso. apply Hnot.
    exact (proj1 (fulfilled_all_settled n (fetched w) (completions w)
                    xs ys zs g i Hj Hi)).
  - split; reflexivity.
Qed.

Lemma POST_waits_witness :
  response
    (POST exampleConstants (Some exampleRequest)
       {| env := exampleEnv;
          randomUUID := lit "9b1deb4d-3b7d-4bad-9bdd-2b0d7b3dcb6d";
          fetched := exampleReply;
          completions := [(G_openai, 0); (G_openai, 1); (G_eigen, 0);
                          (G_eigenRandom, 1); (G_eigenRandom, 0)]%nat |})
  = None.
Proof.
  apply (POST_waits exampleConstants (Some exampleRequest) _ G_eigen 1%nat).
  - reflexivity.
  - reflexivity.
  - reflexivity.
  - vm_compute. lia.
  - cbn. intros [H | [H | [H | [H | [H | []]]]]]; discriminate H.
  - vm_compute. reflexivity.
Defined.

(** ** The page *)

Section DecimalFacts.








End DecimalFacts.

Section PageFacts.

(** The invariant of the form: the run count is within the bounds, and the
    run-count field is empty or shows the run count. *)
Definition pageInv (K : Constants) (s : Page.State) : Prop :=
  MIN_RUNS K <= Page.runs s <= MAX_RUNS K /\
  (Page.runsInput s = [] \/ Page.runsInput s = String_ofZ (Page.runs s)).

Lemma clamped_range K parsed :
  MIN_RUNS K <= MAX_RUNS K ->
  MIN_RUNS K <= Page.clamped K parsed <= MAX_RUNS K.
Proof. unfold Page.clamped. lia. Qed.


Lemma pageInv_initial K v :
  MIN_RUNS K <= 4 -> MIN_RUNS K <= MAX_RUNS K -> pageInv K (Page.initial K v).
Proof.
  intros H4 Hb. split; [|right; reflexivity].
  cbn [Page.initial Page.runs]. unfold Page.defaultRuns. lia.
Qed.

Lemma pageInv_handle K v s ev :
  MIN_RUNS K <= 4 -> MIN_RUNS K <= MAX_RUNS K ->
  pageInv K s -> pageInv K (Page.handle K v s ev).
Proof.
  intros H4 Hb [Hr Hi]. destruct ev as [value | value | | value |];
    cbn [Page.handle].
  - split; assumption.
  - unfold Page.runsOnChange. destruct (isEmpty value).
    + split; [exact Hr | left; reflexivity].
    + destruct (parseInt value 10) as [parsed|]; [|split; assumption].
      split; [apply clamped_range, Hb | right; reflexivity].
  - unfold Page.runsOnBlur. destruct (isEmpty (Page.runsInput s)).
    + split; [cbn; lia | right; reflexivity].
    + destruct (parseInt (Page.runsInput s) 10) as [parsed|].
      * split; [apply clamped_range, Hb | right; reflexivity].
      * split; [cbn; lia | right; reflexivity].
  - split; assumption.
  - apply (pageInv_initial K v H4 Hb).
Qed.

Lemma pageInv_after K v evs :
  MIN_RUNS K <= 4 -> MIN_RUNS K <= MAX_RUNS K ->
  pageInv K (Page.after K v evs).
Proof.
  intros H4 Hb. unfold Page.after.
  generalize (pageInv_initial K v H4 Hb). generalize (Page.initial K v).
  induction evs as [|ev evs IH]; intros s Hs; [exact Hs|].
  cbn [fold_left]. apply IH, pageInv_handle; assumption.
Qed.

Lemma effectiveRuns_in_range K z :
  MIN_RUNS K <= z <= MAX_RUNS K ->
  effectiveRuns K (Some (JNumber (JFin (inject_Z z)))) = inr (ofZ z).
Proof.
  intros H. rewrite effectiveRuns_number. cbn [toNumber Math_floor].
  rewrite Qfloor_Z, clamp_ofZ. do 2 f_equal. lia.
Qed.

Lemma POST_response_shape K parsed w resp :
  response (POST K parsed w) = Some resp ->
  (status resp = 200 /\ exists p o e r, body resp = Comparison p o e r) \/
  ((status resp = 400 \/ status resp = 500) /\
   exists m, body resp = ErrorBody m /\ In m errorTexts).
Proof.
  intros H.
  assert (Herr : forall st msg,
            st = 400 \/ st = 500 -> In (lit msg) errorTexts ->
            response (answer st msg) = Some resp ->
            (status resp = 400 \/ status resp = 500) /\
            exists m, body resp = ErrorBody m /\ In m errorTexts).
  { intros st msg Hst Hmsg [= <-]. split; [exact Hst|].
    exists (lit msg). split; [reflexivity | exact Hmsg]. }
  unfold POST in H.
  destruct (trimmedPrompt _) as [t|[[|c q]|]]; [discriminate H| | |];
    try (right; eapply Herr; [| |exact H]; cbn; tauto).
  destruct (OPENAI_API_KEY (env w)) as [[|c1 k1]|];
    try (right; eapply Herr; [| |exact H]; cbn; tauto).
  destruct (EIGENAI_API_KEY (env w)) as [[|c2 k2]|];
    try (right; eapply Herr; [| |exact H]; cbn; tauto).
  unfold runComparison in H.
  destruct (effectiveRuns K _) as [t|v]; [discriminate H|].
  destruct (arrayLength _) as [n|].
  - destruct (joint (fanout n w)) as [[f|[[x y] z]]|]; cbn [response] in H.
    + right. injection H as <-. split; [right; reflexivity|].
      eexists. split; [reflexivity|]. cbn. tauto.
    + left. injection H as <-. split; [reflexivity|].
      do 4 eexists. reflexivity.
    + discriminate H.
  - right. cbn [response] in H. injection H as <-.
    split; [right; reflexivity|]. eexists. split; [reflexivity|]. cbn. tauto.
Qed.

End PageFacts.

(** X12: whatever is typed into the form, the run count the page holds
    stays within the bounds, and the run-count field is empty or shows that
    run count (with [MIN_RUNS <= 4] and [MIN_RUNS <= MAX_RUNS], without
    which the first run count, the smaller of 4 and [MAX_RUNS], is already
    out of the bounds). *)
Theorem page_runs_in_range (K : Constants) (v : option jsstring)
    (evs : list Page.Event) :
  MIN_RUNS K <= 4 ->
  MIN_RUNS K <= MAX_RUNS K ->
  MIN_RUNS K <= Page.runs (Page.after K v evs) <= MAX_RUNS K /\
  (Page.runsInput (Page.after K v evs) = [] \/
   Page.runsInput (Page.after K v evs)
   = String_ofZ (Page.runs (Page.after K v evs))).
Proof.
  intros H4 Hb. exact (pageInv_after K v evs H4 Hb).
Qed.

Lemma page_runs_in_range_witness :
  Page.runs (Page.after exampleConstants None
               [Page.RunsChange (lit "12"); Page.RunsChange (lit "");
                Page.RunsChange (lit "abc")]) <= 8.
Proof.
  apply (page_runs_in_range exampleConstants None
           [Page.RunsChange (lit "12"); Page.RunsChange (lit "");
            Page.RunsChange (lit "abc")]);
    vm_compute; discriminate.
Defined.



(** X14: the handler honours what the page sends.  For the state of the form
    after any events, a response with status 200 to the request the page
    submits echoes the trimmed prompt, has in each group the run count of
    the form as [runs] and that many [responses], and reports the seed of
    the form as the seed of the seeded group: the default seed of the
    environment of the handler is not used.  (The seed is taken to be a
    safe integer: beyond 2^53 the number the page holds is no longer the
    integer that was typed.) *)
Theorem page_request_honoured (K : Constants) (v : option jsstring)
    (evs : list Page.Event) (w : World) (p : jsstring) (o e r : Group) :
  0 <= MIN_RUNS K ->
  MIN_RUNS K <= 4 ->
  MIN_RUNS K <= MAX_RUNS K ->
  Z.abs (Page.eigenSeed (Page.after K v evs)) <= MAX_SAFE_INTEGER ->
  response (POST K (Some (Page.submitted (Page.after K v evs))) w)
  = Some {| status := 200; body := Comparison p o e r |} ->
  p = trim (Page.prompt (Page.after K v evs)) /\
  seed e = Some (ofZ (Page.eigenSeed (Page.after K v evs))) /\
  (group_runs o = ofZ (Page.runs (Page.after K v evs)) /\
   Z.of_nat (List.length (responses o)) = Page.runs (Page.after K v evs)) /\
  (group_runs e = ofZ (Page.runs (Page.after K v evs)) /\
   Z.of_nat (List.length (responses e)) = Page.runs (Page.after K v evs)) /\
  (group_runs r = ofZ (Page.runs (Page.after K v evs)) /\
   Z.of_nat (List.length (responses r)) = Page.runs (Page.after K v evs)).
Proof.
  intros H0 H4 Hb _ H.
  destruct (pageInv_after K v evs H4 Hb) as [Hr _].
  set (s := Page.after K v evs) in *.
  destruct (POST_success_full K _ w p o e r H)
    as (b & q & k1 & k2 & u & x & y & z & Hb' & Hq & -> & _ & _ & _ & _ & _
        & _ & Hu & Ha & Hj & -> & -> & ->).
  injection Hb' as <-. cbn [Page.submitted requestOf prompt] in Hq.
  injection Hq as <-.
  pose proof (effectiveRuns_in_range K (Page.runs s) Hr) as Heff.
  cbn [Page.submitted requestOf runs] in Hu. rewrite Heff in Hu.
  injection Hu as <-.
  assert (Hn : runCount K (Some (Page.submitted s)) = Z.to_nat (Page.runs s))
    by (apply arrayLength_ofZ; [lia | exact Ha]).
  destruct (fulfilled_in_run_order _ (fetched w) _ x y z
              (consistent_fold _ _ _ _ (consistent_start _ _)) Hj)
    as ((Lx & _) & (Ly & _) & (Lz & _)).
  cbn [group_runs responses seed].
  split; [reflexivity|]. split.
  - unfold chosenSeed, eigenSeedOf, Page.submitted, requestOf.
    cbn [eigenSeed Number_isFinite toNumber Math_floor].
    rewrite Qfloor_Z. reflexivity.
  - rewrite Lx, Ly, Lz, Hn. repeat split; lia.
Qed.

Lemma page_request_honoured_witness :
  exists p o e r,
    response
      (POST exampleConstants
         (Some (Page.submitted
                  (Page.after exampleConstants None
                     [Page.PromptChange (lit " Best ramen? ");
                      Page.RunsChange (lit "2");
                      Page.SeedChange (lit "7")])))
         exampleWorld)
    = Some {| status := 200; body := Comparison p o e r |} /\
    p = lit "Best ramen?" /\ seed e = Some (ofZ 7) /\
    group_runs o = ofZ 2.
Proof.
  do 4 eexists. split; [vm_compute; reflexivity|].
  destruct (page_request_honoured exampleConstants None
              [Page.PromptChange (lit " Best ramen? ");
               Page.RunsChange (lit "2");
               Page.SeedChange (lit "7")]
              exampleWorld _ _ _ _
              ltac:(vm_compute; discriminate)
              ltac:(vm_compute; discriminate)
              ltac:(vm_compute; discriminate)
              ltac:(vm_compute; discriminate)
              eq_refl)
    as (Hp & Hs & (Ho & _) & _).
  split; [exact Hp|]. split; [exact Hs | exact Ho].
Defined.

(** X15: the page shows what the handler answers.  For any state of the
    form, once the response to its request is in, the page is no longer
    loading; after a response with status 200 it holds the comparison and
    no error; after any other response it holds no result and shows the
    error text of the response, one of the four texts of the handler, and
    never its own fallback text. *)
Theorem page_shows_server_answer (K : Constants) (s : Page.State)
    (w : World) (resp : Response) :
  response (POST K (Some (Page.submitted s)) w) = Some resp ->
  Page.isLoading (Page.received resp (Page.submitting s)) = false /\
  ((status resp = 200 /\
    Page.result (Page.received resp (Page.submitting s)) = Some (body resp) /\
    Page.error (Page.received resp (Page.submitting s)) = None /\
    exists p o e r, body resp = Comparison p o e r)
   \/
   (status resp <> 200 /\
    Page.result (Page.received resp (Page.submitting s)) = None /\
    exists m,
      body resp = ErrorBody m /\ In m errorTexts /\
      Page.error (Page.received resp (Page.submitting s)) = Some m)).
Proof.
  intros H. unfold Page.received.
  destruct (POST_response_shape K _ w resp H)
    as [(Hs & p & o & e & r & Hbody) | (Hs & m & Hbody & Hm)].
  - rewrite Hs. change (negb (ok 200)) with false. cbv beta iota.
    split; [reflexivity|]. left. split; [reflexivity|].
    split; [reflexivity|]. split; [reflexivity|]. eauto.
  - assert (Hnok : negb (ok (status resp)) = true)
      by (destruct Hs as [-> | ->]; reflexivity).
    rewrite Hnok. split; [reflexivity|]. right.
    split; [destruct Hs as [-> | ->]; discriminate|].
    split; [reflexivity|]. exists m. split; [exact Hbody|].
    split; [exact Hm|]. cbn [Page.error]. rewrite Hbody.
    assert (Hne : isEmpty m = false).
    { cbn in Hm. destruct Hm as [<- | [<- | [<- | [<- | []]]]]; reflexivity. }
    rewrite Hne. reflexivity.
Qed.

Lemma page_shows_server_answer_witness :
  Page.error
    (Page.received
       {| status := 400; body := ErrorBody (lit "Prompt is required.") |}
       (Page.submitting
          (Page.promptOnChange (lit "  ")
             (Page.initial exampleConstants None))))
  = Some (lit "Prompt is required.").
Proof.
  destruct (page_shows_server_answer exampleConstants
              (Page.promptOnChange (lit "  ")
                 (Page.initial exampleConstants None))
              exampleWorld
              {| status := 400;
                 body := ErrorBody (lit "Prompt is required.") |})
    as (_ & [(Hs & _) | (_ & _ & m & Hbody & _ & Herr)]).
  - vm_compute. reflexivity.
  - discriminate Hs.
  - cbn in Hbody. injection Hbody as <-. exact Herr.
Defined.

(** ** More on the cleanup and on the messages of a response *)

(** X16: in a trimmed text, what stands before the last end marker has no
    influence on the cleaned text. *)
Theorem parseEigenMessage_ignores_preceding (pre pre' post : jsstring) :
  occurs END_TAG (tl (END_TAG ++ post)) = false ->
  trim (pre ++ END_TAG ++ post) = pre ++ END_TAG ++ post ->
  trim (pre' ++ END_TAG ++ post) = pre' ++ END_TAG ++ post ->
  parseEigenMessage (pre ++ END_TAG ++ post)
  = parseEigenMessage (pre' ++ END_TAG ++ post).
Proof.
  intros Hlast Ht Ht'.
  assert (Hne : forall a, isEmpty (a ++ END_TAG ++ post) = false)
    by (intros a; destruct a; reflexivity).
  unfold parseEigenMessage.
  rewrite Ht, Ht', !Hne, !withoutPreceding_last_marker by exact Hlast.
  reflexivity.
Qed.

Lemma parseEigenMessage_ignores_preceding_witness :
  parseEigenMessage (lit "<|start|>thinking" ++ END_TAG ++ lit " Tokyo")
  = parseEigenMessage (lit "" ++ END_TAG ++ lit " Tokyo").
Proof.
  apply (parseEigenMessage_ignores_preceding
           (lit "<|start|>thinking") (lit "") (lit " Tokyo"));
    vm_compute; reflexivity.
Defined.

(** X17: in a response with status 200, every message of the first group
    is the trimmed content of the first choice of the upstream response of
    its run (empty when there is none), and every message of the two
    groups of the second provider is the cleanup of that content. *)
Theorem response_messages (K : Constants) (parsed : option CompareRequest)
    (w : World) (p : jsstring) (o e r : Group) :
  response (POST K parsed w)
  = Some {| status := 200; body := Comparison p o e r |} ->
  (forall i v, responses o !! i = Some v ->
     exists st text data,
       fetched w (G_openai, i) = Responds st text (Some data) /\
       message v = default [] (extractMessage data)) /\
  (forall i v, responses e !! i = Some v ->
     exists st text data,
       fetched w (G_eigen, i) = Responds st text (Some data) /\
       message v = parseEigenMessage (default [] (extractMessage data))) /\
  (forall i v, responses r !! i = Some v ->
     exists st text data,
       fetched w (G_eigenRandom, i) = Responds st text (Some data) /\
       message v = parseEigenMessage (default [] (extractMessage data))).
Proof.
  intros H.
  destruct (POST_success_full K parsed w p o e r H)
    as (b & q & k1 & k2 & u & x & y & z & _ & _ & _ & _ & _ & _ & _ & _ & _
        & _ & _ & Hj & -> & -> & ->).
  destruct (fulfilled_in_run_order _ (fetched w) _ x y z
              (consistent_fold _ _ _ _ (consistent_start _ _)) Hj)
    as ((_ & Hx) & (_ & Hy) & (_ & Hz)).
  cbn [responses].
  repeat split; intros i v Hv;
    [apply Hx in Hv | apply Hy in Hv | apply Hz in Hv];
    destruct (runOf_success _ _ _ Hv) as (_ & st & text & data & Ho & _ & Hm);
    exists st, text, data; split; assumption.
Qed.

Lemma response_messages_witness :
  exists p o e r,
    response (POST exampleConstants (Some exampleRequest) exampleWorld)
    = Some {| status := 200; body := Comparison p o e r |} /\
    exists v st text data,
      responses e !! 1%nat = Some v /\
      fetched exampleWorld (G_eigen, 1%nat) = Responds st text (Some data) /\
      message v = parseEigenMessage (default [] (extractMessage data)).
Proof.
  do 4 eexists. split; [vm_compute; reflexivity|].
  destruct (response_messages exampleConstants (Some exampleRequest)
              exampleWorld _ _ _ _ eq_refl) as (_ & He & _).
  eexists.
  destruct (He 1%nat _ eq_refl) as (st & text & data & Hf & Hm).
  exists st, text, data. split; [reflexivity|]. split; assumption.
Defined.

(** ** The run count of any request *)

(** X18: with [MIN_RUNS <= MAX_RUNS], for a request whose [runs] is missing,
    [null] or a number, the run count is an integer of the range: the
    nearest one to 4 when [runs] is missing or [null] (4 itself when 4 is in
    the range), the nearest one to the floor of [runs] when it is finite,
    [MAX_RUNS] for positive infinity and [MIN_RUNS] for negative
    infinity. *)
Theorem effectiveRuns_numeric (K : Constants) (r : option jsonNumber) :
  MIN_RUNS K <= MAX_RUNS K ->
  effectiveRuns K (Some JNull) = effectiveRuns K None /\
  exists n,
    effectiveRuns K (option_map JNumber r) = inr (ofZ n) /\
    MIN_RUNS K <= n <= MAX_RUNS K /\
    match r with
    | None =>
        n = nearestInRange (MIN_RUNS K) (MAX_RUNS K) 4 /\
        (MIN_RUNS K <= 4 <= MAX_RUNS K -> n = 4)
    | Some (JFin q) => n = nearestInRange (MIN_RUNS K) (MAX_RUNS K) (Qfloor q)
    | Some JPosInf => n = MAX_RUNS K
    | Some JNegInf => n = MIN_RUNS K
    end.
Proof.
  intros Hb. split; [reflexivity|].
  destruct r as [[| q |]|]; cbn [option_map];
    rewrite ?effectiveRuns_number; cbn [toNumber Math_floor].
  - exists (MIN_RUNS K). split; [|split; [lia | reflexivity]].
    unfold clamp. cbn [Math_max ofZ]. fold (ofZ (MIN_RUNS K)) (ofZ (MAX_RUNS K)).
    rewrite Math_min_ofZ. do 2 f_equal. lia.
  - rewrite clamp_ofZ, clamp_nearest by exact Hb.
    eexists. split; [reflexivity|].
    split; [apply nearestInRange_bounds, Hb | reflexivity].
  - exists (MAX_RUNS K). split; [reflexivity|]. split; [lia | reflexivity].
  - unfold effectiveRuns. unfold ofZ at 1. cbn [Math_floor]. rewrite Qfloor_Z.
    rewrite clamp_ofZ, clamp_nearest by exact Hb.
    eexists. split; [reflexivity|].
    split; [apply nearestInRange_bounds, Hb|].
    split; [reflexivity|].
    intros H4. unfold nearestInRange.
    destruct (Z.ltb_spec 4 (MIN_RUNS K)); [lia|].
    destruct (Z.ltb_spec (MAX_RUNS K) 4); [lia | reflexivity].
Qed.

Lemma effectiveRuns_numeric_witness :
  MIN_RUNS exampleConstants <= MAX_RUNS exampleConstants /\
  exists n,
    effectiveRuns exampleConstants (Some (JNumber (JFin (19 # 2))))
    = inr (ofZ n) /\
    MIN_RUNS exampleConstants <= n <= MAX_RUNS exampleConstants /\
    n = nearestInRange (MIN_RUNS exampleConstants) (MAX_RUNS exampleConstants)
                       (Qfloor (19 # 2)).
Proof.
  split.
  - vm_compute. discriminate.
  - apply (proj2 (effectiveRuns_numeric exampleConstants
                    (Some (JFin (19 # 2)))
                    ltac:(vm_compute; discriminate))).
Defined.

(** X19: with run bounds that are not negative, in every response with
    status 200 the three groups have the same [runs], and either it is an
    integer of the range and each group has that many [responses], or it is
    [NaN], the groups have no [responses], no call was issued and the
    [runs] of the request was neither missing nor a number. *)
Theorem runs_and_responses (K : Constants) (parsed : option CompareRequest)
    (w : World) (p : jsstring) (o e r : Group) :
  0 <= MIN_RUNS K ->
  MIN_RUNS K <= MAX_RUNS K ->
  response (POST K parsed w)
  = Some {| status := 200; body := Comparison p o e r |} ->
  (group_runs o = group_runs e /\ group_runs e = group_runs r) /\
  ((exists z,
      MIN_RUNS K <= z <= MAX_RUNS K /\ group_runs o = ofZ z /\
      Z.of_nat (List.length (responses o)) = z /\
      Z.of_nat (List.length (responses e)) = z /\
      Z.of_nat (List.length (responses r)) = z)
   \/
   (group_runs o = NaN /\
    responses o = [] /\ responses e = [] /\ responses r = [] /\
    issued (POST K parsed w) = [] /\
    match runs (default emptyRequest parsed) with
    | None | Some JNull | Some (JNumber _) => False
    | Some v => ToNumber v = inr NaN
    end)).
Proof.
  intros H0 Hb H.
  destruct (POST_success_full K parsed w p o e r H)
    as (b & q & k1 & k2 & v & x & y & z & -> & _ & _ & _ & _ & _ & _ & _ & HP
        & Hv & Ha & Hj & -> & -> & ->).
  destruct (fulfilled_in_run_order (runCount K (Some b)) (fetched w)
              (fanout (runCount K (Some b)) w) x y z)
    as ((Lx & _) & (Ly & _) & (Lz & _)).
  { apply consistent_fold, consistent_start. }
  { exact Hj. }
  cbn [group_runs responses from_option id].
  split; [split; reflexivity|].
  destruct (effectiveRuns_cases K _ v Hv) as [-> | (k & -> & Hk)].
  - right. injection Ha as Hn. rewrite <- Hn in Lx, Ly, Lz.
    split; [reflexivity|].
    split; [now destruct x|]. split; [now destruct y|].
    split; [now destruct z|].
    split; [|exact (effectiveRuns_NaN K _ Hv)].
    rewrite HP, runComparison_issued, <- Hn. reflexivity.
  - left. exists k.
    assert (Hn : runCount K (Some b) = Z.to_nat k)
      by (apply arrayLength_ofZ; [lia | exact Ha]).
    rewrite Lx, Ly, Lz, Hn. repeat split; lia.
Qed.

Lemma runs_and_responses_witness :
  exists p o e r,
    response (POST exampleConstants (Some exampleRequest) exampleWorld)
    = Some {| status := 200; body := Comparison p o e r |} /\
    group_runs o = ofZ 2 /\ Z.of_nat (List.length (responses o)) = 2.
Proof.
  do 4 eexists. split; [vm_compute; reflexivity|].
  destruct (runs_and_responses exampleConstants (Some exampleRequest)
              exampleWorld _ _ _ _
              ltac:(vm_compute; discriminate)
              ltac:(vm_compute; discriminate)
              eq_refl)
    as (_ & [(z & _ & Ho & Hlen & _) | (Ho & _)]).
  - vm_compute in Ho. injection Ho as <-. split; reflexivity.
  - vm_compute in Ho. discriminate Ho.
Defined.
